(** * crrapi/bot: message-reference converters and locale settings

  A shallow embedding of

  - [utils/converter.py]: the four converters [OffsetMessage],
    [IDMessage], [MemberMessage], [KeywordMessage] and their union
    [Message];
  - [emote_collector/extensions/locale.py]: the [Locales] cog, whose
    methods read and write the [locales] table.

  Python exceptions are values of [exn]; a computation that may raise
  returns a [result].  The SQL table is a list of rows and every
  statement is a function on it. *)

From Stdlib Require Import ZArith Lia List Bool Ascii String.
Import ListNotations.
Local Open Scope string_scope.
Local Open Scope Z_scope.

Set Implicit Arguments.

(** ** Exceptions and results *)

Inductive exn : Type :=
| BadArgument (msg : string)              (* commands.BadArgument *)
| MissingPermissions (perms : list string) (* commands.MissingPermissions *)
| BadUnionArgument                        (* commands.BadUnionArgument *)
| NotFound                                (* discord.NotFound *)
| Forbidden                               (* discord.Forbidden *)
| NameError (name : string)               (* builtin NameError *)
| CardinalityViolation                    (* more than one row in a scalar subquery *)
| AttributeError (name : string)          (* builtin AttributeError *)
| NoPrivateMessage.                       (* commands.NoPrivateMessage *)

Inductive result (A : Type) : Type :=
| Ok (a : A)
| Raise (e : exn).

Arguments Ok {A} a.
Arguments Raise {A} e.

Definition bind {A B : Type} (r : result A) (k : A -> result B) : result B :=
match r with
| Ok a => k a
| Raise e => Raise e
end.

Notation "x <- r ;; k" := (bind r (fun x => k))
(at level 61, r at next level, right associativity).

Definition is_ok {A : Type} (r : result A) : bool :=
match r with Ok _ => true | Raise _ => false end.

(** ** The Python builtins the two modules use

    Strings are ASCII: [int] reads ASCII digits and white space. *)

Module Py.

(** [str.strip] removes ASCII white space at both ends before [int]
    reads the literal. *)
Definition is_space (c : ascii) : bool :=
  let n := nat_of_ascii c in
  ((9 <=? n) && (n <=? 13) || (n =? 32))%nat.

Fixpoint lstrip (s : list ascii) : list ascii :=
  match s with
  | c :: s' => if is_space c then lstrip s' else s
  | [] => []
  end.

Definition strip (s : list ascii) : list ascii :=
  rev (lstrip (rev (lstrip s))).

(** Value of a digit character: [0-9], [a-z], [A-Z]. *)
Definition digit_val (c : ascii) : option Z :=
  let n := Z.of_nat (nat_of_ascii c) in
  if (48 <=? n) && (n <=? 57) then Some (n - 48)
  else if (97 <=? n) && (n <=? 122) then Some (n - 87)
  else if (65 <=? n) && (n <=? 90) then Some (n - 55)
  else None.

(** Digits of a literal in base [base], with single underscores
    between digits.  [us_ok] says whether an underscore may come next,
    [last_digit] whether the previous character was a digit (a literal
    must end in one). *)
Fixpoint digits (base acc : Z) (us_ok last_digit : bool) (s : list ascii)
  : option Z :=
  match s with
  | [] => if last_digit then Some acc else None
  | c :: s' =>
      if Ascii.eqb c "_"%char then
        if us_ok then digits base acc false false s' else None
      else
        match digit_val c with
        | Some d =>
            if d <? base then digits base (acc * base + d) true true s'
            else None
        | None => None
        end
  end.

Definition all_zero (s : list ascii) : bool :=
  forallb (fun c => Ascii.eqb c "0"%char || Ascii.eqb c "_"%char) s.

(** The unsigned part of a literal.  With [base = 0] the base comes
    from the prefix, and a decimal literal that starts with [0] must
    be zero. *)
Definition unsigned_literal (base0 : bool) (s : list ascii) : option Z :=
  if base0 then
    match s with
    | "0"%char :: p :: s' =>
        if Ascii.eqb p "x"%char || Ascii.eqb p "X"%char then digits 16 0 true false s'
        else if Ascii.eqb p "o"%char || Ascii.eqb p "O"%char then digits 8 0 true false s'
        else if Ascii.eqb p "b"%char || Ascii.eqb p "B"%char then digits 2 0 true false s'
        else if all_zero s then digits 10 0 false false s else None
    | _ => digits 10 0 false false s
    end
  else digits 10 0 false false s.

Definition signed_literal (base0 : bool) (s : list ascii) : option Z :=
  match s with
  | "-"%char :: s' => option_map Z.opp (unsigned_literal base0 s')
  | "+"%char :: s' => unsigned_literal base0 s'
  | _ => unsigned_literal base0 s
  end.

(** [int(s, base=0)]; [None] stands for [ValueError]. *)
Definition int_base0 (s : string) : option Z :=
  signed_literal true (strip (list_ascii_of_string s)).

(** [int(s)]; [None] stands for [ValueError]. *)
Definition int (s : string) : option Z :=
  signed_literal false (strip (list_ascii_of_string s)).

(** [x or y] on an optional integer: [None] and [0] are falsy. *)
Definition or_int (x : option Z) (y : Z) : Z :=
  match x with
  | Some n => if n =? 0 then y else n
  | None => y
  end.

(** [x or y] on an optional string: [None] and [''] are falsy. *)
Definition or_str (x : option string) (y : string) : string :=
  match x with
  | Some s => if String.eqb s "" then y else s
  | None => y
  end.

(** [needle in haystack] on strings. *)
Fixpoint contains (needle haystack : string) : bool :=
  String.prefix needle haystack ||
  match haystack with
  | EmptyString => false
  | String _ h' => contains needle h'
  end.

End Py.

(** ** The platform objects the code reads *)

(** A message, with the attributes the two modules look at.  Users are
    compared by identifier, as [discord.User.__eq__] does; [message_guild]
    is [None] for a direct message. *)
Record message : Type := mkMessage {
  message_id : Z;
  message_author : Z;
  message_content : string;
  message_webhook_id : option Z;
  message_guild : option Z;
  message_channel : Z
}.

(** A channel: [history] is the stream [channel.history()] yields,
    newest first (the invoking message is its head when the command was
    sent there); [get_message] is the point fetch, which raises
    [NotFound] or [Forbidden]. *)
Record channel : Type := mkChannel {
  history : list message;
  get_message : Z -> result message
}.

(** The invocation context: [context.author] is [context.message.author]
    and [context.history()] is [context.channel.history()]. *)
Record context : Type := mkContext {
  ctx_message : message;
  ctx_channel : channel
}.

Definition ctx_author (ctx : context) : Z := message_author (ctx_message ctx).
Definition ctx_history (ctx : context) : list message := history (ctx_channel ctx).

(** A match of a regular expression with a group called [name]. *)
Record re_match : Type := mkMatch {
  group_all : string;
  group_name : string
}.

(** The subject of a regular expression cut at its successive matches. *)
Inductive piece : Type :=
| Text (s : string)
| Matched (m : re_match).

(** ** utils/converter.py *)

(** The names bound at module level in [converter.py]: its three imports
    and its own definitions. *)
Definition converter_globals : list string :=
  [ "typing"; "commands"; "utils";
    "OffsetMessage"; "_validate_snowflake"; "IDMessage";
    "_search_for_message"; "MemberMessage"; "KeywordMessage"; "Message" ].

(** Looking a global name up raises [NameError] when it is unbound. *)
Definition load_global (name : string) : result unit :=
  if existsb (String.eqb name) converter_globals then Ok tt
  else Raise (NameError name).

Section Converter.

(** [utils.SMALLEST_SNOWFLAKE]. *)
Variable SMALLEST_SNOWFLAKE : Z.
(** [utils.get_message_by_offset(channel, index)]. *)
Variable get_message_by_offset : channel -> Z -> result message.
(** [commands.converter.MemberConverter().convert(context, argument)]. *)
Variable MemberConverter_convert : context -> string -> result Z.
(** The successive matches of [utils.emote.RE_CUSTOM_EMOTE] in a string. *)
Variable RE_CUSTOM_EMOTE_pieces : string -> list piece.
(** [str.casefold]. *)
Variable casefold : string -> string.

(** [pattern.sub(repl, string)] with a function for [repl]. *)
Definition RE_CUSTOM_EMOTE_sub (repl : re_match -> string) (s : string) : string :=
  fold_right
    (fun p acc => match p with Text t => t ++ acc | Matched m => repl m ++ acc end)%string
    "" (RE_CUSTOM_EMOTE_pieces s).

Definition OffsetMessage_convert (ctx : context) (offset : string) : result message :=
  match Py.int_base0 offset with
  | None => Raise (BadArgument "Not a valid integer.")
  | Some n =>
      let offset := n - 1 in  (* skip the invoking message *)
      if offset <? 0 then get_message_by_offset (ctx_channel ctx) offset
      else Raise (BadArgument "Not a message offset.")
  end.

Definition _validate_snowflake (argument : string) : result Z :=
  match Py.int argument with
  | None => Raise (BadArgument "Not a valid integer.")
  | Some id =>
      if id <? SMALLEST_SNOWFLAKE then Raise (BadArgument "Not a valid message ID.")
      else Ok id
  end.

(** The two [except] clauses name [discord.NotFound] and
    [discord.Forbidden]; each expression is evaluated when an exception
    reaches its clause. *)
Definition IDMessage_convert (ctx : context) (id : string) : result message :=
  id <- _validate_snowflake id ;;
  match get_message (ctx_channel ctx) id with
  | Ok m => Ok m
  | Raise e =>
      _ <- load_global "discord" ;;
      match e with
      | NotFound =>
          Raise (BadArgument "Message not found! Make sure your message ID is correct.")
      | _ =>
          _ <- load_global "discord" ;;
          match e with
          | Forbidden =>
              Raise (BadArgument
                "Permission denied! Make sure the bot has permission to read that message.")
          | _ => Raise e
          end
      end
  end.

Fixpoint search_history (h : list message) (predicate : message -> bool)
  : result message :=
  match h with
  | [] => Raise (BadArgument "Message not found.")
  | m :: h' => if predicate m then Ok m else search_history h' predicate
  end.

Definition _search_for_message (target : context) (predicate : message -> bool)
  : result message :=
  search_history (ctx_history target) predicate.

Definition MemberMessage_predicate (ctx : context) (m : message) : bool :=
  negb (message_id m =? message_id (ctx_message ctx))
  && (message_author m =? ctx_author ctx).

Definition MemberMessage_convert (ctx : context) (argument : string) : result message :=
  m <- MemberConverter_convert ctx argument ;;
  _search_for_message ctx (MemberMessage_predicate ctx).

Definition emote_to_name (m : re_match) : string := group_name m.

Definition normalize (content : string) : string :=
  casefold (RE_CUSTOM_EMOTE_sub emote_to_name content).

Definition KeywordMessage_predicate (ctx : context) (argument : string) (m : message)
  : bool :=
  negb (message_id m =? message_id (ctx_message ctx))
  && Py.contains (casefold argument) (normalize (message_content m)).

Definition KeywordMessage_convert (ctx : context) (argument : string) : result message :=
  _search_for_message ctx (KeywordMessage_predicate ctx argument).

(** [typing.Union] as a converter: the framework tries the members in
    order, goes on to the next one when one raises, and raises
    [BadUnionArgument] when all of them did. *)
Fixpoint union_convert (cs : list (context -> string -> result message))
  (ctx : context) (argument : string) : result message :=
  match cs with
  | [] => Raise BadUnionArgument
  | c :: cs' =>
      match c ctx argument with
      | Ok m => Ok m
      | Raise _ => union_convert cs' ctx argument
      end
  end.

Definition Message_convert : context -> string -> result message :=
  union_convert
    [OffsetMessage_convert; IDMessage_convert; MemberMessage_convert; KeywordMessage_convert].

End Converter.

(** ** emote_collector/extensions/locale.py *)

(** A row of the table [locales("user", channel, guild, locale)]; the
    three keys are nullable, [locale] is always given by the inserts. *)
Record row : Type := mkRow {
  user : option Z;
  channel_ : option Z;
  guild : option Z;
  locale_ : string
}.

Definition table : Type := list row.

(** SQL [column = $n]: unknown, hence not selected, when either side is
    [NULL]. *)
Definition sql_eq (column param : option Z) : bool :=
  match column, param with
  | Some a, Some b => a =? b
  | _, _ => false
  end.

(** SQL [column IS NULL]. *)
Definition is_null (column : option Z) : bool :=
  match column with
  | None => true
  | Some _ => false
  end.

(** [SELECT locale FROM locales WHERE ...]. *)
Definition select_locale (where_ : row -> bool) (t : table) : list string :=
  map locale_ (filter where_ t).

(** A subquery used as an expression: [NULL] on no row, the value on
    one, an error on more. *)
Definition scalar_subquery (rows : list string) : result (option string) :=
  match rows with
  | [] => Ok None
  | [v] => Ok (Some v)
  | _ :: _ :: _ => Raise CardinalityViolation
  end.

(** [COALESCE]: the first argument that is not [NULL]; the arguments to
    the right of it are not evaluated. *)
Fixpoint coalesce (args : list (result (option string))) : result (option string) :=
  match args with
  | [] => Ok None
  | a :: args' =>
      match a with
      | Raise e => Raise e
      | Ok (Some v) => Ok (Some v)
      | Ok None => coalesce args'
      end
  end.

(** The three [WHERE] clauses of the module. *)
Definition where_user (u : option Z) (r : row) : bool := sql_eq (user r) u.
Definition where_channel (c : option Z) (r : row) : bool := sql_eq (channel_ r) c.
Definition where_guild_default (g : option Z) (r : row) : bool :=
  sql_eq (guild r) g && is_null (channel_ r) && is_null (user r).

(** Statements run against the pool: a state and exception monad over
    the table. *)
Definition Db (A : Type) : Type := table -> result A * table.

Definition db_ret {A : Type} (a : A) : Db A := fun t => (Ok a, t).
Definition db_raise {A : Type} (e : exn) : Db A := fun t => (Raise e, t).
Definition db_bind {A B : Type} (c : Db A) (k : A -> Db B) : Db B :=
  fun t =>
    match c t with
    | (Ok a, t') => k a t'
    | (Raise e, t') => (Raise e, t')
    end.
(** [pool.fetchval]: reads, leaves the table as it is. *)
Definition fetchval {A : Type} (q : table -> result A) : Db A := fun t => (q t, t).
(** [pool.execute] of a statement that cannot fail. *)
Definition execute (stmt : table -> table) : Db unit := fun t => (Ok tt, stmt t).

Notation "x <~ c ;; k" := (db_bind c (fun x => k))
  (at level 61, c at next level, right associativity).

Definition run {A : Type} (c : Db A) (t : table) : result A := fst (c t).
Definition exec {A : Type} (c : Db A) (t : table) : table := snd (c t).

Definition user_channel_or_guild_locale (user_ : Z) (channel guild_ : option Z)
  : Db (option string) :=
  fetchval (fun t =>
    coalesce
      [ scalar_subquery (select_locale (where_user (Some user_)) t);
        scalar_subquery (select_locale (where_channel channel) t);
        scalar_subquery (select_locale (where_guild_default guild_) t) ]).

(** [channel] is the pair of [channel.id] and [channel.guild.id]. *)
Definition channel_or_guild_locale (channel : Z * Z) : Db (option string) :=
  fetchval (fun t =>
    coalesce
      [ scalar_subquery (select_locale (where_channel (Some (fst channel))) t);
        scalar_subquery (select_locale (where_guild_default (Some (snd channel))) t) ]).

(** A plain [SELECT] under [fetchval]: the first row, or [None]. *)
Definition guild_locale (guild_ : Z) : Db (option string) :=
  fetchval (fun t => Ok (hd_error (select_locale (where_guild_default (Some guild_)) t))).

(** [DELETE FROM locales WHERE ...]. *)
Definition delete_where (where_ : row -> bool) (t : table) : table :=
  filter (fun r => negb (where_ r)) t.

(** The row [DO UPDATE SET locale = ...] leaves in place of [r]. *)
Definition updated (conflict : row -> bool) (locale : string) (r : row) : row :=
  if conflict r then mkRow (user r) (channel_ r) (guild r) locale else r.

(** [INSERT ... ON CONFLICT (...) DO UPDATE SET locale = EXCLUDED.locale]:
    [conflict] selects the rows that hold the proposed row's value of
    the conflict target (the unique index the target names leaves at
    most one of them); such a row gets the new locale, and without one
    the proposed row is inserted.  The rows the module inserts have
    [NULL] in the other unique columns, so no other index refuses them. *)
Definition insert_on_conflict_update (conflict : row -> bool) (new : row) (t : table)
  : table :=
  if existsb conflict t then map (updated conflict (locale_ new)) t
  else (t ++ [new])%list.

Definition set_guild_locale (guild_ : Z) (locale : string) : Db unit :=
  _ <~ execute (delete_where (where_guild_default (Some guild_))) ;;
  execute (fun t => (t ++ [mkRow None None (Some guild_) locale])%list).

(** The conflict targets [(guild, channel)] and [("user")]: a row
    conflicts when it holds the same values, none of them [NULL]. *)
Definition conflict_guild_channel (guild_ channel : Z) (r : row) : bool :=
  sql_eq (guild r) (Some guild_) && sql_eq (channel_ r) (Some channel).
Definition conflict_user (user_ : Z) (r : row) : bool :=
  sql_eq (user r) (Some user_).

Definition set_channel_locale (guild_ channel : Z) (locale : string) : Db unit :=
  execute (insert_on_conflict_update
             (conflict_guild_channel guild_ channel)
             (mkRow None (Some channel) (Some guild_) locale)).

Definition set_user_locale (user_ : Z) (locale : string) : Db unit :=
  execute (insert_on_conflict_update
             (conflict_user user_)
             (mkRow (Some user_) None None locale)).

Definition delete_user_account (user_id : Z) : Db unit :=
  execute (delete_where (where_user (Some user_id))).

(** What the two [set] commands read of their context when they are
    invoked in a guild:
    [manage_messages] is [context.author.guild_permissions.manage_messages],
    [channel_manage_messages] is the same permission of the author in
    the channel of the command, which [commands.has_permissions] checks. *)
Record command_context : Type := mkCommandContext {
  author_id : Z;
  manage_messages : bool;
  channel_manage_messages : bool;
  guild_id : Z
}.

Section Locales.

(** [i18n.default_locale]. *)
Variable default_locale : string.
(** [bot.is_owner(user)]. *)
Variable is_owner : Z -> bool.

(** The expression [locale] returns:
    [await self.user_channel_or_guild_locale(user, channel, guild)
     or i18n.default_locale]. *)
Definition locale_or_default (user_ : Z) (channel guild_ : option Z) : Db string :=
  l <~ user_channel_or_guild_locale user_ channel guild_ ;;
  db_ret (Py.or_str l default_locale).

Definition locale (m : message) : Db string :=
  let user_ := Py.or_int (message_webhook_id m) (message_author m) in
  let '(channel, guild_) :=
    match message_guild m with
    | None => (None, None)
    | Some g => (Some (message_channel m), Some g)
    end in
  locale_or_default user_ channel guild_.

(** The reaction added at the end leaves the table alone. *)
Definition set_locale_command (ctx : command_context) (channel : option Z)
  (locale : string) : Db unit :=
  _ <~ match channel with
       | None => set_user_locale (author_id ctx) locale
       | Some c =>
           if negb (manage_messages ctx) || negb (is_owner (author_id ctx))
           then db_raise (MissingPermissions ["manage_messages"])
           else set_channel_locale (guild_id ctx) c locale
       end ;;
  db_ret tt.

(** [set_guild_locale_command] runs behind
    [commands.has_permissions(manage_messages=True)]. *)
Definition set_guild_locale_command (ctx : command_context) (locale : string) : Db unit :=
  if channel_manage_messages ctx then
    _ <~ set_guild_locale (guild_id ctx) locale ;; db_ret tt
  else db_raise (MissingPermissions ["manage_messages"]).

End Locales.

(** [set_guild_locale] called once per element of [calls], in order. *)
Fixpoint set_guild_locales (calls : list (Z * string)) : Db unit :=
  match calls with
  | [] => db_ret tt
  | (g, l) :: calls' => _ <~ set_guild_locale g l ;; set_guild_locales calls'
  end.

(** The locale of the last call of [calls] made for guild [g]. *)
Fixpoint last_set (g : Z) (calls : list (Z * string)) : option string :=
  match calls with
  | [] => None
  | (g', l) :: calls' =>
      match last_set g calls' with
      | Some l' => Some l'
      | None => if g' =? g then Some l else None
      end
  end.

(** ** The data model's invariants (section 3 of the specification) *)

Definition at_most_one (where_ : row -> bool) (t : table) : Prop :=
  (List.length (filter where_ t) <= 1)%nat.

(** Each scope key is unique and every stored locale is a locale code,
    hence not the empty string. *)
Record table_ok (t : table) : Prop := mkTableOk {
  unique_user : forall u, at_most_one (where_user (Some u)) t;
  unique_channel : forall c, at_most_one (where_channel (Some c)) t;
  unique_guild_default : forall g, at_most_one (where_guild_default (Some g)) t;
  locale_nonempty : forall r, In r t -> locale_ r <> ""
}.

(** What the unique index behind [ON CONFLICT (guild, channel)] keeps. *)
Definition unique_guild_channel (t : table) : Prop :=
  forall g c, at_most_one (conflict_guild_channel g c) t.

(** The channel-scoped and the guild-default rows of the data model. *)
Definition channel_scoped (r : row) : bool :=
  negb (is_null (channel_ r)) && is_null (user r).
Definition guild_default (r : row) : bool :=
  negb (is_null (guild r)) && is_null (channel_ r) && is_null (user r).

(** ** The specification's reading of the operations *)

(** Modelled from the spec: [utils.get_message_by_offset] is not among
    the sources.  The specification has it walk the channel's stream
    backward from the invoking message and return the message at the
    given position, 0 being the most recent one before the invocation,
    and fail with NotFound when the stream ends first (as it does for a
    position that is not in the stream at all). *)
Definition get_message_by_offset_spec (c : channel) (index : Z) : result message :=
  if index <? 0 then Raise NotFound
  else
    match nth_error (tl (history c)) (Z.to_nat index) with
    | Some m => Ok m
    | None => Raise NotFound
    end.

(** The offset strategy in the specification's words: a strictly
    positive offset [N] selects position [N - 1], anything else is an
    invalid argument. *)
Definition OffsetMessage_spec (ctx : context) (offset : string) : result message :=
  match Py.int_base0 offset with
  | None => Raise (BadArgument "Not a valid integer.")
  | Some n =>
      let effective_index := n - 1 in
      if effective_index <? 0 then Raise (BadArgument "Not a message offset.")
      else get_message_by_offset_spec (ctx_channel ctx) effective_index
  end.

(** The member strategy in the specification's words: the first message
    of the stream written by the resolved member, the invoking message
    apart. *)
Definition MemberMessage_spec (MemberConverter_convert : context -> string -> result Z)
  (ctx : context) (argument : string) : result message :=
  m <- MemberConverter_convert ctx argument ;;
  search_history (ctx_history ctx)
    (fun msg => negb (message_id msg =? message_id (ctx_message ctx))
                && (message_author msg =? m)).

(** The channel gate in the specification's words: Manage Messages
    alone lets the caller set a channel's locale. *)
Definition set_locale_command_spec (ctx : command_context) (channel : option Z)
  (locale : string) : Db unit :=
  match channel with
  | None => set_user_locale (author_id ctx) locale
  | Some c =>
      if negb (manage_messages ctx)
      then db_raise (MissingPermissions ["manage_messages"])
      else set_channel_locale (guild_id ctx) c locale
  end.

(** ** Instances of the collaborators, for the examples *)

Module Sample.

(** [str.casefold] on ASCII text: capitals become small letters. *)
Definition fold_char (c : ascii) : ascii :=
  let n := nat_of_ascii c in
  if ((65 <=? n) && (n <=? 90))%nat then ascii_of_nat (n + 32) else c.

Fixpoint casefold (s : string) : string :=
  match s with
  | EmptyString => EmptyString
  | String c s' => String (fold_char c) (casefold s')
  end.

(** The platform's markup of a custom emote, [<:name:id>] or
    [<a:name:id>]. *)
Definition is_word (c : ascii) : bool :=
  let n := nat_of_ascii c in
  ((48 <=? n) && (n <=? 57) || (65 <=? n) && (n <=? 90)
   || (97 <=? n) && (n <=? 122) || (n =? 95))%nat.

Definition is_digit (c : ascii) : bool :=
  let n := nat_of_ascii c in ((48 <=? n) && (n <=? 57))%nat.

Fixpoint span (p : ascii -> bool) (s : string) : string * string :=
  match s with
  | String c s' =>
      if p c then let '(a, b) := span p s' in (String c a, b) else (EmptyString, s)
  | EmptyString => (EmptyString, EmptyString)
  end.

(** A match that starts at the head of [s], if there is one. *)
Definition match_emote (s : string) : option re_match :=
  match s with
  | String "<" s1 =>
      let '(anim, s2) :=
        match s1 with
        | String "a" (String ":" _ as s') => ("a", s')
        | _ => ("", s1)
        end in
      match s2 with
      | String ":" s3 =>
          let '(name, s4) := span is_word s3 in
          match name, s4 with
          | String _ _, String ":" s5 =>
              let '(id, s6) := span is_digit s5 in
              match id, s6 with
              | String _ _, String ">" _ =>
                  Some (mkMatch ("<" ++ anim ++ ":" ++ name ++ ":" ++ id ++ ">") name)
              | _, _ => None
              end
          | _, _ => None
          end
      | _ => None
      end
  | _ => None
  end.

(** The subject cut at its matches, left to right; [skip] counts the
    characters of the current match that are still to be passed. *)
Fixpoint pieces_from (skip : nat) (s : string) : list piece :=
  match s with
  | EmptyString => []
  | String c s' =>
      match skip with
      | S k => pieces_from k s'
      | O =>
          match match_emote s with
          | Some m => Matched m :: pieces_from (String.length (group_all m) - 1) s'
          | None => Text (String c EmptyString) :: pieces_from O s'
          end
      end
  end.

Definition RE_CUSTOM_EMOTE_pieces (s : string) : list piece := pieces_from O s.

(** The platform's first identifier. *)
Definition SMALLEST_SNOWFLAKE : Z := 21154535154122752.

Definition msg (id author : Z) (content : string) : message :=
  mkMessage id author content None (Some 900) 800.

(** Alice (1) and Bob (2) write in turn; Alice's command is the newest
    message. *)
Definition M0 : message := msg 21154535154122904 1 "ec react bob :thinking:".
Definition M1 : message := msg 21154535154122903 1 "anyone there?".
Definition M2 : message :=
  msg 21154535154122902 2 "Look <:ThinkEyes:123456789012345678> over here".
Definition M3 : message := msg 21154535154122901 1 "good morning".

Definition fetch (h : list message) (id : Z) : result message :=
  match find (fun m => message_id m =? id) h with
  | Some m => Ok m
  | None => Raise NotFound
  end.

Definition chan : channel := mkChannel [M0; M1; M2; M3] (fetch [M0; M1; M2; M3]).
Definition ctx : context := mkContext M0 chan.

(** A member lookup that knows Alice and Bob by name. *)
Definition MemberConverter_convert (_ : context) (argument : string) : result Z :=
  if String.eqb argument "alice" then Ok 1
  else if String.eqb argument "bob" then Ok 2
  else Raise (BadArgument "Member not found.").

(** Rows of all three shapes; user 1, channel 800 and guild 900 each
    have one, and 77 is the key of a webhook. *)
Definition rows : table :=
  [ mkRow (Some 1) None None "de_DE";
    mkRow None (Some 800) (Some 900) "es_ES";
    mkRow None None (Some 900) "hu_HU";
    mkRow (Some 77) None None "fr_FR";
    mkRow None None (Some 1) "en_US" ].

(** A message a webhook posted in channel 800 of guild 900. *)
Definition hook_message : message :=
  mkMessage 21154535154122905 1 "hello" (Some 77) (Some 900) 800.

End Sample.

(** ** The rest of locale.py: the converter [Locale] and the [get] commands *)

Section LocaleCommands.

(** [i18n.locales], in the order its iteration gives. *)
Variable locales : list string.
(** [i18n.default_locale]. *)
Variable default_locale : string.
(** The builtin [_] that [i18n] installs: the translation of a message. *)
Variable gettext : string -> string.
(** [template.format(name=value)]. *)
Variable format : string -> string -> string -> string.

(** [InvalidLocaleError()], a [commands.BadArgument]. *)
Definition InvalidLocaleError : exn :=
  BadArgument
    (format (gettext "Invalid locale. The valid locales are: {locales}")
       "locales" (String.concat ", " locales)).

Definition Locale (argument : string) : result string :=
  if negb (existsb (String.eqb argument) locales) then Raise InvalidLocaleError
  else Ok argument.

(** The value of a command of the [get] family is the text it sends.
    [channel] is the pair of [channel.id] and [channel.guild.id]. *)
Definition get_locale_command (m : message) (channel : option (Z * Z)) : Db string :=
  match channel with
  | None =>
      user_locale <~ locale default_locale m ;;
      db_ret (format (gettext "Your current locale is: {user_locale}")
                "user_locale" user_locale)
  | Some c =>
      l <~ channel_or_guild_locale c ;;
      db_ret (format (gettext "The current locale for that channel is: {channel_or_guild_locale}")
                "channel_or_guild_locale" (Py.or_str l default_locale))
  end.

Definition get_guild_locale_command (ctx : command_context) : Db string :=
  l <~ guild_locale (guild_id ctx) ;;
  db_ret (format (gettext "The current locale for this server is: {guild_locale}")
            "guild_locale" (Py.or_str l default_locale)).

End LocaleCommands.

(** ** The [set] commands as they are invoked

    A command is invoked in a guild or in a direct message.  In a guild
    [context.author] is a member, with [guild_permissions], and
    [context.guild] is the guild: this is what [command_context] holds.
    In a direct message [context.author] is a plain user, who has an
    [id] and no [guild_permissions], and [context.guild] is [None]. *)
Inductive invocation : Type :=
| InGuild (ctx : command_context)
| InPrivate (author : Z).

Section Invocations.

(** [bot.is_owner(user)]. *)
Variable is_owner : Z -> bool.

(** [locale set]: the group [locale_command] carries no check, so the
    body of [set_locale_command] runs in a direct message too.  There
    the first branch reads [context.author.id] alone; the test of the
    second branch evaluates [context.author.guild_permissions] first,
    which raises [AttributeError]. *)
Definition locale_set (inv : invocation) (channel : option Z) (locale : string)
  : Db unit :=
  match inv with
  | InGuild ctx => set_locale_command is_owner ctx channel locale
  | InPrivate author =>
      _ <~ match channel with
           | None => set_user_locale author locale
           | Some _ => db_raise (AttributeError "guild_permissions")
           end ;;
      db_ret tt
  end.

(** [serverlocale set]: the group [guild_locale_command] is behind
    [commands.guild_only()], which raises [NoPrivateMessage] outside a
    guild before the subcommand and its own check are reached. *)
Definition serverlocale_set (inv : invocation) (locale : string) : Db unit :=
  match inv with
  | InGuild ctx => set_guild_locale_command ctx locale
  | InPrivate _ => db_raise NoPrivateMessage
  end.

End Invocations.

(** ** The shapes of the rows the module inserts *)

(** [set_user_locale] gives the user alone, [set_channel_locale] the
    guild and the channel, [set_guild_locale] the guild alone. *)
Definition well_shaped (r : row) : bool :=
  match user r, channel_ r, guild r with
  | Some _, None, None => true
  | None, Some _, Some _ => true
  | None, None, Some _ => true
  | _, _, _ => false
  end.

Definition shaped (t : table) : Prop := forall r, In r t -> well_shaped r = true.

(** Every stored locale is one that [Locale] accepts. *)
Definition all_supported (locales : list string) (t : table) : Prop :=
  forall r, In r t -> In (locale_ r) locales.

(** Instances of the translation and of [str.format], for the examples:
    no translation, and the value put after the template. *)
Module SampleText.

Definition locales : list string := ["en_US"; "de_DE"; "es_ES"; "hu_HU"; "fr_FR"].
Definition gettext (s : string) : string := s.
Definition format (template name value : string) : string :=
  (template ++ " <- " ++ name ++ "=" ++ value)%string.

(** A caller with Manage Messages in guild 900, who is user 1. *)
Definition moderator : command_context := mkCommandContext 1 true true 900.

End SampleText.

(** * Properties *)

Unset Implicit Arguments.

(** ** The builtins *)

Example int_base0_dec : Py.int_base0 "42" = Some 42. Proof. reflexivity. Qed.
Example int_base0_neg : Py.int_base0 " -3 " = Some (-3). Proof. reflexivity. Qed.
Example int_base0_hex : Py.int_base0 "0x1F" = Some 31. Proof. reflexivity. Qed.
Example int_base0_bin : Py.int_base0 "-0b1_01" = Some (-5). Proof. reflexivity. Qed.
Example int_base0_lead : Py.int_base0 "012" = None. Proof. reflexivity. Qed.
Example int_base0_zero : Py.int_base0 "00" = Some 0. Proof. reflexivity. Qed.
Example int_base0_word : Py.int_base0 "hello" = None. Proof. reflexivity. Qed.
Example int_base0_empty : Py.int_base0 "" = None. Proof. reflexivity. Qed.
Example int_dec_lead : Py.int "012" = Some 12. Proof. reflexivity. Qed.
Example int_dec_hex : Py.int "0x1F" = None. Proof. reflexivity. Qed.
Example int_dec_us : Py.int "1__0" = None. Proof. reflexivity. Qed.

Lemma prefix_app (n h : string) :
  String.prefix n h = true <-> exists b, h = (n ++ b)%string.
Proof.
  revert h; induction n as [|c n IH]; intros h.
  - split; [intros _; now exists h | intros _; now destruct h].
  - destruct h as [|d h]; simpl.
    + split; [discriminate | intros [b Hb]; discriminate].
    + destruct (Ascii.ascii_dec c d) as [->|Hcd].
      * rewrite IH. split; intros [b Hb]; exists b; congruence.
      * split; [discriminate | intros [b Hb]; congruence].
Qed.

Lemma append_empty_r (s : string) : (s ++ "")%string = s.
Proof. induction s as [|c s IH]; simpl; [reflexivity | now rewrite IH]. Qed.

(** [Py.contains] is the substring test. *)
Lemma contains_iff (n h : string) :
  Py.contains n h = true <-> exists a b, h = (a ++ n ++ b)%string.
Proof.
  induction h as [|c h IH]; cbn [Py.contains].
  - rewrite orb_false_r, prefix_app. split.
    + intros [b Hb]. now exists "", b.
    + intros [a [b Hab]]. destruct a; [now exists b | discriminate].
  - rewrite orb_true_iff, prefix_app, IH. split.
    + intros [[b Hb] | [a [b Hab]]].
      * now exists "", b.
      * exists (String c a), b. simpl. now rewrite Hab.
    + intros [a [b Hab]]. destruct a as [|d a]; simpl in Hab.
      * left. now exists b.
      * right. exists a, b. congruence.
Qed.

Example contains_mid : Py.contains "ell" "hello" = true. Proof. reflexivity. Qed.
Example contains_no : Py.contains "elo" "hello" = false. Proof. reflexivity. Qed.
Example contains_empty : Py.contains "" "" = true. Proof. reflexivity. Qed.

(** ** utils/converter.py *)

(** The scan stops at the first message the predicate accepts, and fails
    when there is none. *)
Lemma search_history_first (h : list message) (p : message -> bool) :
  (exists pre m post,
      h = (pre ++ m :: post)%list
      /\ (forall x, In x pre -> p x = false)
      /\ p m = true
      /\ search_history h p = Ok m)
  \/ ((forall x, In x h -> p x = false)
      /\ search_history h p = Raise (BadArgument "Message not found.")).
Proof.
  induction h as [|m h IH]; simpl.
  - right. split; [intros x [] | reflexivity].
  - destruct (p m) eqn:Hm.
    + left. exists [], m, h. repeat split; [intros x [] | assumption].
    + destruct IH as [(pre & m' & post & -> & Hpre & Hm' & Hres) | [Hall Hres]].
      * left. exists (m :: pre), m', post. repeat split; try assumption.
        intros x [<-|Hx]; [assumption | now apply Hpre].
      * right. split; [| assumption].
        intros x [<-|Hx]; [assumption | now apply Hall].
Qed.

Section ConverterFacts.

Variable SMALLEST_SNOWFLAKE : Z.
Variable get_message_by_offset : channel -> Z -> result message.
Variable MemberConverter_convert : context -> string -> result Z.
Variable RE_CUSTOM_EMOTE_pieces : string -> list piece.
Variable casefold : string -> string.

(** C1, as the code has it.  For an argument that reads as the integer
    [n] in base 0, the converter works on [n - 1]: when that is not
    negative ([1 <= n]) it raises [BadArgument "Not a message offset."];
    when it is negative ([n <= 0]) the result is that of
    [utils.get_message_by_offset(context.channel, n - 1)]. *)
Theorem OffsetMessage_convert_guard (ctx : context) (offset : string) (n : Z) :
  Py.int_base0 offset = Some n ->
  (1 <= n ->
   OffsetMessage_convert get_message_by_offset ctx offset
   = Raise (BadArgument "Not a message offset."))
  /\ (n <= 0 ->
      OffsetMessage_convert get_message_by_offset ctx offset
      = get_message_by_offset (ctx_channel ctx) (n - 1)).
Proof.
  intros Hn. unfold OffsetMessage_convert. rewrite Hn. cbv zeta.
  split; intros H.
  - destruct (Z.ltb_spec (n - 1) 0); [lia | reflexivity].
  - destruct (Z.ltb_spec (n - 1) 0); [reflexivity | lia].
Qed.

(** An argument that is no integer literal is refused as such. *)
Lemma OffsetMessage_convert_not_integer (ctx : context) (offset : string) :
  Py.int_base0 offset = None ->
  OffsetMessage_convert get_message_by_offset ctx offset
  = Raise (BadArgument "Not a valid integer.").
Proof. intros H. unfold OffsetMessage_convert. now rewrite H. Qed.

(** The member the argument resolves to plays no part in the result:
    two lookups that both succeed give the same message. *)
Lemma MemberMessage_convert_member_unused
  (conv1 conv2 : context -> string -> result Z) (ctx : context) (argument : string) :
  is_ok (conv1 ctx argument) = true ->
  is_ok (conv2 ctx argument) = true ->
  MemberMessage_convert conv1 ctx argument = MemberMessage_convert conv2 ctx argument.
Proof.
  unfold MemberMessage_convert.
  destruct (conv1 ctx argument), (conv2 ctx argument); simpl; congruence.
Qed.

(** Once the fetch raises, the first [except] clause looks up the name
    [discord], which the module never binds. *)
Lemma IDMessage_convert_fetch_raises (ctx : context) (argument : string) (n : Z) (e : exn) :
  Py.int argument = Some n ->
  SMALLEST_SNOWFLAKE <= n ->
  get_message (ctx_channel ctx) n = Raise e ->
  IDMessage_convert SMALLEST_SNOWFLAKE ctx argument = Raise (NameError "discord").
Proof.
  intros Hn Hfloor Hget. unfold IDMessage_convert, _validate_snowflake.
  rewrite Hn. destruct (Z.ltb_spec n SMALLEST_SNOWFLAKE); [lia |].
  simpl. now rewrite Hget.
Qed.

(** C7, as the code has it.  For an argument that reads as the decimal
    integer [n]: at or above the floor, the identifier converter
    succeeds exactly when the fetch of message [n] from the channel
    does, and returns the fetched message; below the floor it raises
    [BadArgument "Not a valid message ID."] whatever the channel holds.
    The offset converter, tried first, takes the argument only when it
    is zero or negative: from 1 on it refuses it. *)
Theorem IDMessage_convert_floor (ctx : context) (argument : string) (n : Z) :
  Py.int argument = Some n ->
  (SMALLEST_SNOWFLAKE <= n ->
   forall m, IDMessage_convert SMALLEST_SNOWFLAKE ctx argument = Ok m
             <-> get_message (ctx_channel ctx) n = Ok m)
  /\ (n < SMALLEST_SNOWFLAKE ->
      IDMessage_convert SMALLEST_SNOWFLAKE ctx argument
      = Raise (BadArgument "Not a valid message ID."))
  /\ (forall k, Py.int_base0 argument = Some k -> 1 <= k ->
      OffsetMessage_convert get_message_by_offset ctx argument
      = Raise (BadArgument "Not a message offset.")).
Proof.
  intros Hn. repeat split.
  - unfold IDMessage_convert, _validate_snowflake. rewrite Hn.
    destruct (Z.ltb_spec n SMALLEST_SNOWFLAKE); [lia |]. simpl.
    destruct (get_message (ctx_channel ctx) n) as [m'|e]; [trivial |].
    simpl. discriminate.
  - unfold IDMessage_convert, _validate_snowflake. rewrite Hn.
    destruct (Z.ltb_spec n SMALLEST_SNOWFLAKE); [lia |]. simpl.
    now intros ->.
  - intros Hlt. unfold IDMessage_convert, _validate_snowflake. rewrite Hn.
    destruct (Z.ltb_spec n SMALLEST_SNOWFLAKE); [reflexivity | lia].
  - intros k Hk Hpos. unfold OffsetMessage_convert. rewrite Hk. cbv zeta.
    destruct (Z.ltb_spec (k - 1) 0); [lia | reflexivity].
Qed.

(** An integer from 1 up to the floor is taken by neither numeric
    converter: the union hands it to the member converter and, when that
    one raises, to the keyword converter. *)
Lemma Message_convert_small_positive (ctx : context) (argument : string) (n : Z) :
  Py.int_base0 argument = Some n ->
  Py.int argument = Some n ->
  1 <= n < SMALLEST_SNOWFLAKE ->
  Message_convert SMALLEST_SNOWFLAKE get_message_by_offset MemberConverter_convert
    RE_CUSTOM_EMOTE_pieces casefold ctx argument
  = union_convert
      [ MemberMessage_convert MemberConverter_convert;
        KeywordMessage_convert RE_CUSTOM_EMOTE_pieces casefold ] ctx argument.
Proof.
  intros H0 H10 [Hlo Hhi]. unfold Message_convert. cbn [union_convert].
  unfold OffsetMessage_convert at 1. rewrite H0. cbv zeta.
  destruct (Z.ltb_spec (n - 1) 0); [lia |].
  unfold IDMessage_convert at 1, _validate_snowflake. rewrite H10.
  destruct (Z.ltb_spec n SMALLEST_SNOWFLAKE); [| lia].
  reflexivity.
Qed.

(** Replacing every match by its [name] group: the text between the
    matches is kept, each match gives its name. *)
Lemma RE_CUSTOM_EMOTE_sub_names (s : string) :
  RE_CUSTOM_EMOTE_sub RE_CUSTOM_EMOTE_pieces emote_to_name s
  = String.concat ""
      (map (fun p => match p with Text t => t | Matched m => group_name m end)
           (RE_CUSTOM_EMOTE_pieces s)).
Proof.
  unfold RE_CUSTOM_EMOTE_sub, emote_to_name.
  induction (RE_CUSTOM_EMOTE_pieces s) as [|p ps IH]; simpl; [reflexivity |].
  rewrite IH. destruct ps as [|q ps]; simpl.
  - destruct p; now rewrite append_empty_r.
  - destruct p; reflexivity.
Qed.

(** The predicate of the keyword converter read on the pieces of the
    content: the text between the matches as it stands, every match
    reduced to its [name] group, the whole case-folded. *)
Lemma KeywordMessage_predicate_names (ctx : context) (argument : string) (m : message) :
  KeywordMessage_predicate RE_CUSTOM_EMOTE_pieces casefold ctx argument m = true
  <-> message_id m <> message_id (ctx_message ctx)
      /\ exists a b,
           casefold
             (String.concat ""
                (map (fun p => match p with Text t => t | Matched e => group_name e end)
                     (RE_CUSTOM_EMOTE_pieces (message_content m))))
           = (a ++ casefold argument ++ b)%string.
Proof.
  unfold KeywordMessage_predicate, normalize.
  rewrite RE_CUSTOM_EMOTE_sub_names.
  rewrite andb_true_iff, negb_true_iff, Z.eqb_neq, contains_iff.
  reflexivity.
Qed.

(** C8.  The keyword converter returns the first message of the stream,
    newest first, that is not the invoking message and whose content,
    with every custom-emote match replaced by its name and then
    case-folded, has the case-folded argument as a substring; when the
    stream has no such message it raises
    [BadArgument "Message not found."].  The normalised content is
    written out on the pieces of the content: the text outside the
    matches is kept as it is and each match contributes its [name]
    group and nothing else. *)
Theorem KeywordMessage_convert_first_match (ctx : context) (argument : string) :
  let hit (m : message) :=
    message_id m <> message_id (ctx_message ctx)
    /\ exists a b,
         casefold
           (String.concat ""
              (map (fun p => match p with Text t => t | Matched e => group_name e end)
                   (RE_CUSTOM_EMOTE_pieces (message_content m))))
         = (a ++ casefold argument ++ b)%string in
  (exists pre m post,
      ctx_history ctx = (pre ++ m :: post)%list
      /\ (forall x, In x pre -> ~ hit x)
      /\ hit m
      /\ KeywordMessage_convert RE_CUSTOM_EMOTE_pieces casefold ctx argument = Ok m)
  \/ ((forall x, In x (ctx_history ctx) -> ~ hit x)
      /\ KeywordMessage_convert RE_CUSTOM_EMOTE_pieces casefold ctx argument
         = Raise (BadArgument "Message not found.")).
Proof.
  intros hit.
  assert (Hp : forall m,
             KeywordMessage_predicate RE_CUSTOM_EMOTE_pieces casefold ctx argument m = true
             <-> hit m).
  { intros m. apply KeywordMessage_predicate_names. }
  assert (Hn : forall m,
             KeywordMessage_predicate RE_CUSTOM_EMOTE_pieces casefold ctx argument m = false
             -> ~ hit m).
  { intros m Hf Hh. apply Hp in Hh. congruence. }
  unfold KeywordMessage_convert, _search_for_message.
  destruct (search_history_first (ctx_history ctx)
              (KeywordMessage_predicate RE_CUSTOM_EMOTE_pieces casefold ctx argument))
    as [(pre & m & post & Hh & Hpre & Hm & Hres) | [Hall Hres]].
  - left. exists pre, m, post. repeat split; try assumption.
    + intros x Hx. apply Hn. now apply Hpre.
    + apply Hp in Hm. apply Hm.
    + apply Hp in Hm. apply Hm.
  - right. split; [| assumption]. intros x Hx. apply Hn. now apply Hall.
Qed.

End ConverterFacts.

(** *** The converters on Alice's and Bob's channel *)

Example keyword_finds_emote_name :
  KeywordMessage_convert Sample.RE_CUSTOM_EMOTE_pieces Sample.casefold
    Sample.ctx "thinkEYES over" = Ok Sample.M2.
Proof. reflexivity. Qed.

Example keyword_misses_emote_id :
  KeywordMessage_convert Sample.RE_CUSTOM_EMOTE_pieces Sample.casefold
    Sample.ctx "123456789012345678" = Raise (BadArgument "Message not found.").
Proof. reflexivity. Qed.

Example keyword_skips_invoking_message :
  KeywordMessage_convert Sample.RE_CUSTOM_EMOTE_pieces Sample.casefold
    Sample.ctx "react" = Raise (BadArgument "Message not found.").
Proof. reflexivity. Qed.

Example id_fetches_message :
  IDMessage_convert Sample.SMALLEST_SNOWFLAKE Sample.ctx "21154535154122902"
  = Ok Sample.M2.
Proof. reflexivity. Qed.

(** A well-formed identifier of a message that is not there: the handler
    meant for [discord.NotFound] raises [NameError] instead. *)
Example id_absent_message :
  IDMessage_convert Sample.SMALLEST_SNOWFLAKE Sample.ctx "21154535154122999"
  = Raise (NameError "discord").
Proof. reflexivity. Qed.

(** Witness of [OffsetMessage_convert_guard]: ["2"] is refused, ["-1"]
    goes to the helper with index [-2]. *)
Lemma OffsetMessage_convert_guard_witness :
  OffsetMessage_convert get_message_by_offset_spec Sample.ctx "2"
  = Raise (BadArgument "Not a message offset.")
  /\ OffsetMessage_convert get_message_by_offset_spec Sample.ctx "-1"
     = get_message_by_offset_spec Sample.chan (-1 - 1).
Proof.
  split.
  - apply (proj1 (OffsetMessage_convert_guard get_message_by_offset_spec
                    Sample.ctx "2" 2 eq_refl)). lia.
  - apply (proj2 (OffsetMessage_convert_guard get_message_by_offset_spec
                    Sample.ctx "-1" (-1) eq_refl)). lia.
Defined.

(** C1 fails as stated.  On the history [M0 (invoking); M1; M2; M3] the
    specification sends ["2"] to [M2] and refuses ["0"]; the code
    refuses ["2"] and hands ["0"] to the helper. *)
Lemma OffsetMessage_positive_offset_refused :
  OffsetMessage_spec Sample.ctx "2" = Ok Sample.M2
  /\ OffsetMessage_convert get_message_by_offset_spec Sample.ctx "2"
     = Raise (BadArgument "Not a message offset.")
  /\ OffsetMessage_spec Sample.ctx "0" = Raise (BadArgument "Not a message offset.")
  /\ OffsetMessage_convert get_message_by_offset_spec Sample.ctx "0"
     = get_message_by_offset_spec Sample.chan (-1).
Proof. repeat split. Qed.

(** C2 fails on the code.  Alice asks for Bob's message: the member
    lookup resolves ["bob"] to user 2, yet the scan compares authors
    with the caller and returns [M1], Alice's own message; the
    specification's reading returns [M2], Bob's. *)
Theorem MemberMessage_convert_returns_callers_message :
  Sample.MemberConverter_convert Sample.ctx "bob" = Ok 2
  /\ MemberMessage_convert Sample.MemberConverter_convert Sample.ctx "bob" = Ok Sample.M1
  /\ message_author Sample.M1 = ctx_author Sample.ctx
  /\ MemberMessage_spec Sample.MemberConverter_convert Sample.ctx "bob" = Ok Sample.M2
  /\ message_author Sample.M2 = 2.
Proof. repeat split. Qed.

(** Witness of [IDMessage_convert_floor]: the identifier of [M2] is
    fetched, ["5"] is below the floor and refused. *)
Lemma IDMessage_convert_floor_witness :
  IDMessage_convert Sample.SMALLEST_SNOWFLAKE Sample.ctx "21154535154122902"
  = Ok Sample.M2
  /\ IDMessage_convert Sample.SMALLEST_SNOWFLAKE Sample.ctx "5"
     = Raise (BadArgument "Not a valid message ID.").
Proof.
  split.
  - apply (proj1 (IDMessage_convert_floor Sample.SMALLEST_SNOWFLAKE
                    get_message_by_offset_spec Sample.ctx "21154535154122902"
                    21154535154122902 eq_refl)).
    + unfold Sample.SMALLEST_SNOWFLAKE. lia.
    + reflexivity.
  - apply (proj1 (proj2 (IDMessage_convert_floor Sample.SMALLEST_SNOWFLAKE
                    get_message_by_offset_spec Sample.ctx "5" 5 eq_refl))).
    unfold Sample.SMALLEST_SNOWFLAKE. lia.
Defined.

(** C7 fails as stated.  ["2"] is below the floor, so the identifier
    converter refuses it; the offset converter, tried first, refuses it
    too, and the union goes on to the member and keyword converters
    instead of returning [M2], the message at offset 2. *)
Lemma small_positive_integer_is_no_offset :
  IDMessage_convert Sample.SMALLEST_SNOWFLAKE Sample.ctx "2"
  = Raise (BadArgument "Not a valid message ID.")
  /\ OffsetMessage_convert get_message_by_offset_spec Sample.ctx "2"
     = Raise (BadArgument "Not a message offset.")
  /\ OffsetMessage_spec Sample.ctx "2" = Ok Sample.M2
  /\ Message_convert Sample.SMALLEST_SNOWFLAKE get_message_by_offset_spec
       Sample.MemberConverter_convert Sample.RE_CUSTOM_EMOTE_pieces Sample.casefold
       Sample.ctx "2"
     = Raise BadUnionArgument.
Proof. repeat split. Qed.

(** ** emote_collector/extensions/locale.py *)

Lemma filter_at_most_one (p : row -> bool) (t : table) (r : row) :
  at_most_one p t -> In r t -> p r = true -> filter p t = [r].
Proof.
  unfold at_most_one. intros Hlen Hin Hp.
  assert (Hf : In r (filter p t)) by (apply filter_In; now split).
  destruct (filter p t) as [|x [|y l]]; simpl in *.
  - contradiction.
  - destruct Hf as [->|[]]. reflexivity.
  - lia.
Qed.

Lemma filter_nil (p : row -> bool) (t : table) :
  (forall r, In r t -> p r = false) -> filter p t = [].
Proof.
  induction t as [|x t IH]; simpl; intros H; [reflexivity |].
  rewrite (H x) by now left. apply IH. intros r Hr. apply H. now right.
Qed.

Lemma filter_hd_In (p : row -> bool) (t : table) (r : row) (l : list row) :
  filter p t = r :: l -> In r t /\ p r = true.
Proof.
  intros H. apply filter_In. rewrite H. now left.
Qed.

Lemma sql_eq_Some (column : option Z) (k : Z) :
  sql_eq column (Some k) = true <-> column = Some k.
Proof.
  destruct column as [a|]; simpl.
  - rewrite Z.eqb_eq. split; congruence.
  - split; discriminate.
Qed.

Lemma sql_eq_None (column : option Z) : sql_eq column None = false.
Proof. now destruct column. Qed.

Lemma is_null_iff (column : option Z) : is_null column = true <-> column = None.
Proof. destruct column; simpl; split; congruence. Qed.

(** A [WHERE] clause on a key that may be [NULL] selects at most one row
    of a table that keeps the invariants. *)
Lemma table_ok_user t u : table_ok t -> at_most_one (where_user u) t.
Proof.
  intros Hok. destruct u as [u|]; [apply Hok |].
  unfold at_most_one. rewrite filter_nil; [simpl; lia |].
  intros r _. apply sql_eq_None.
Qed.

Lemma table_ok_channel t c : table_ok t -> at_most_one (where_channel c) t.
Proof.
  intros Hok. destruct c as [c|]; [apply Hok |].
  unfold at_most_one. rewrite filter_nil; [simpl; lia |].
  intros r _. apply sql_eq_None.
Qed.

Lemma table_ok_guild_default t g : table_ok t -> at_most_one (where_guild_default g) t.
Proof.
  intros Hok. destruct g as [g|]; [apply Hok |].
  unfold at_most_one. rewrite filter_nil; [simpl; lia |].
  intros r _. unfold where_guild_default. now rewrite sql_eq_None.
Qed.

(** A scalar subquery over a clause that selects at most one row. *)
Lemma scalar_subquery_at_most_one (p : row -> bool) (t : table) :
  at_most_one p t ->
  scalar_subquery (select_locale p t) = Ok (option_map locale_ (hd_error (filter p t))).
Proof.
  unfold at_most_one, select_locale. intros H.
  destruct (filter p t) as [|x [|y l]]; simpl in *; [reflexivity | reflexivity | lia].
Qed.

Section LocaleFacts.

Variable default_locale : string.

(** On a table that keeps the invariants the query is the three-way
    choice, and nothing is raised. *)
Lemma locale_or_default_choice (t : table) (u : Z) (c g : option Z) :
  table_ok t ->
  run (locale_or_default default_locale u c g) t
  = Ok match filter (where_user (Some u)) t with
       | r :: _ => locale_ r
       | [] =>
           match filter (where_channel c) t with
           | r :: _ => locale_ r
           | [] =>
               match filter (where_guild_default g) t with
               | r :: _ => locale_ r
               | [] => default_locale
               end
           end
       end.
Proof.
  intros Hok.
  assert (Hne : forall p r l, filter p t = r :: l ->
                              Py.or_str (Some (locale_ r)) default_locale = locale_ r).
  { intros p r l H. apply filter_hd_In in H. destruct H as [Hin _].
    apply (locale_nonempty Hok) in Hin. unfold Py.or_str.
    destruct (String.eqb_spec (locale_ r) ""); [contradiction | reflexivity]. }
  unfold run, locale_or_default, db_bind, user_channel_or_guild_locale, fetchval, db_ret.
  cbn [coalesce fst].
  rewrite (scalar_subquery_at_most_one _ _ (table_ok_user _ (Some u) Hok)).
  rewrite (scalar_subquery_at_most_one _ _ (table_ok_channel _ c Hok)).
  rewrite (scalar_subquery_at_most_one _ _ (table_ok_guild_default _ g Hok)).
  destruct (filter (where_user (Some u)) t) as [|r1 l1] eqn:E1;
    cbn [hd_error option_map].
  2: { now rewrite (Hne _ _ _ E1). }
  destruct (filter (where_channel c) t) as [|r2 l2] eqn:E2;
    cbn [hd_error option_map].
  2: { now rewrite (Hne _ _ _ E2). }
  destruct (filter (where_guild_default g) t) as [|r3 l3] eqn:E3;
    cbn [hd_error option_map].
  2: { now rewrite (Hne _ _ _ E3). }
  reflexivity.
Qed.

(** C3.  On a table that keeps the data model's invariants, the locale
    resolved for [(u, c, g)] is that of the row of user [u] when there
    is one; else that of the row of channel [c] when there is one; else
    that of the guild-default row of [g] (channel and user both null)
    when there is one; else the default locale.  Nothing is raised, and
    [locale] resolves a message this way. *)
Theorem locale_precedence (t : table) (u : Z) (c g : option Z) :
  table_ok t ->
  let resolved := run (locale_or_default default_locale u c g) t in
  let no_user_row := forall r, In r t -> where_user (Some u) r = false in
  let no_channel_row := forall r, In r t -> where_channel c r = false in
  let no_guild_row := forall r, In r t -> where_guild_default g r = false in
  (forall r, In r t -> user r = Some u -> resolved = Ok (locale_ r))
  /\ (no_user_row ->
      forall r k, In r t -> c = Some k -> channel_ r = Some k ->
                  resolved = Ok (locale_ r))
  /\ (no_user_row -> no_channel_row ->
      forall r k, In r t -> g = Some k ->
                  guild r = Some k -> channel_ r = None -> user r = None ->
                  resolved = Ok (locale_ r))
  /\ (no_user_row -> no_channel_row -> no_guild_row ->
      resolved = Ok default_locale)
  /\ (exists l, resolved = Ok l)
  /\ (forall m,
        locale default_locale m
        = locale_or_default default_locale
            (Py.or_int (message_webhook_id m) (message_author m))
            (match message_guild m with
             | Some _ => Some (message_channel m)
             | None => None
             end)
            (message_guild m)).
Proof.
  intros Hok resolved no_user_row no_channel_row no_guild_row.
  subst resolved. rewrite (locale_or_default_choice _ u c g Hok).
  repeat split.
  - intros r Hin Hu.
    rewrite (filter_at_most_one _ _ r (table_ok_user _ (Some u) Hok) Hin); [reflexivity |].
    now apply sql_eq_Some.
  - intros Hnu r k Hin -> Hc.
    rewrite (filter_nil _ _ Hnu).
    rewrite (filter_at_most_one _ _ r (table_ok_channel _ (Some k) Hok) Hin);
      [reflexivity |].
    now apply sql_eq_Some.
  - intros Hnu Hnc r k Hin -> Hg Hc Hu'.
    rewrite (filter_nil _ _ Hnu), (filter_nil _ _ Hnc).
    rewrite (filter_at_most_one _ _ r (table_ok_guild_default _ (Some k) Hok) Hin);
      [reflexivity |].
    unfold where_guild_default. rewrite Hg, Hc, Hu'. simpl. now rewrite Z.eqb_refl.
  - intros Hnu Hnc Hng.
    now rewrite (filter_nil _ _ Hnu), (filter_nil _ _ Hnc), (filter_nil _ _ Hng).
  - eexists. reflexivity.
  - intros m. unfold locale. now destruct (message_guild m).
Qed.

(** C10.  A message that carries a webhook identifier (identifiers are
    never 0) is resolved with that identifier as the user key, whatever
    its author: on a table that keeps the invariants, a row of the
    webhook's key gives the locale.  The author's identifier is the key
    only when the message carries no webhook identifier. *)
Theorem locale_webhook_key (t : table) (m : message) :
  table_ok t ->
  let channel := match message_guild m with
                 | Some _ => Some (message_channel m)
                 | None => None
                 end in
  (forall w, message_webhook_id m = Some w -> w <> 0 ->
     locale default_locale m = locale_or_default default_locale w channel (message_guild m)
     /\ forall r, In r t -> user r = Some w ->
                  run (locale default_locale m) t = Ok (locale_ r))
  /\ (message_webhook_id m = None ->
      locale default_locale m
      = locale_or_default default_locale (message_author m) channel (message_guild m)
      /\ forall r, In r t -> user r = Some (message_author m) ->
                   run (locale default_locale m) t = Ok (locale_ r)).
Proof.
  intros Hok channel.
  assert (Hrow : forall k r, In r t -> user r = Some k ->
                   run (locale_or_default default_locale k channel (message_guild m)) t
                   = Ok (locale_ r)).
  { intros k r Hin Hu. rewrite (locale_or_default_choice _ k _ _ Hok).
    rewrite (filter_at_most_one _ _ r (table_ok_user _ (Some k) Hok) Hin); [reflexivity |].
    now apply sql_eq_Some. }
  split.
  - intros w Hw Hnz.
    assert (E : locale default_locale m
                = locale_or_default default_locale w channel (message_guild m)).
    { unfold locale, channel. rewrite Hw. unfold Py.or_int.
      destruct (Z.eqb_spec w 0); [contradiction |].
      now destruct (message_guild m). }
    split; [exact E |]. intros r Hin Hu. rewrite E. now apply Hrow.
  - intros Hw.
    assert (E : locale default_locale m
                = locale_or_default default_locale (message_author m) channel
                    (message_guild m)).
    { unfold locale, channel. rewrite Hw. unfold Py.or_int.
      now destruct (message_guild m). }
    split; [exact E |]. intros r Hin Hu. rewrite E. now apply Hrow.
Qed.

End LocaleFacts.

(** *** Writes *)

Lemma filter_app_one (q : row -> bool) (t : table) (r : row) :
  filter q (t ++ [r]) = (filter q t ++ if q r then [r] else [])%list.
Proof. rewrite filter_app. simpl. now destruct (q r). Qed.

Lemma filter_map_commute (q : row -> bool) (f : row -> row) (t : table) :
  (forall r, q (f r) = q r) -> filter q (map f t) = map f (filter q t).
Proof.
  intros H. induction t as [|x t IH]; simpl; [reflexivity |].
  rewrite H. destruct (q x); simpl; now rewrite IH.
Qed.

Lemma filter_filter_negb (p : row -> bool) (t : table) :
  filter p (filter (fun r => negb (p r)) t) = [].
Proof.
  apply filter_nil. intros r Hr. apply filter_In in Hr.
  destruct Hr as [_ Hr]. now apply negb_true_iff in Hr.
Qed.

Lemma filter_filter_disjoint (q p : row -> bool) (t : table) :
  (forall r, q r = true -> p r = false) ->
  filter q (filter (fun r => negb (p r)) t) = filter q t.
Proof.
  intros H. induction t as [|x t IH]; simpl; [reflexivity |].
  destruct (p x) eqn:Hp; simpl.
  - destruct (q x) eqn:Hq; [apply H in Hq; congruence | exact IH].
  - destruct (q x); now rewrite IH.
Qed.

Lemma existsb_filter (p : row -> bool) (t : table) :
  existsb p t = false -> filter p t = [].
Proof.
  intros H. apply filter_nil. intros r Hr.
  destruct (p r) eqn:Hp; [| reflexivity].
  assert (existsb p t = true) by (apply existsb_exists; now exists r). congruence.
Qed.

Lemma existsb_filter_cons (p : row -> bool) (t : table) :
  existsb p t = true -> exists r l, filter p t = r :: l.
Proof.
  intros H. apply existsb_exists in H. destruct H as [r [Hin Hp]].
  assert (Hf : In r (filter p t)) by (apply filter_In; now split).
  destruct (filter p t) as [|x l]; [contradiction | now exists x, l].
Qed.

Lemma conflict_guild_channel_updated p l g c r :
  conflict_guild_channel g c (updated p l r) = conflict_guild_channel g c r.
Proof. unfold updated. now destruct (p r). Qed.

Lemma conflict_guild_channel_iff g c r :
  conflict_guild_channel g c r = true <-> guild r = Some g /\ channel_ r = Some c.
Proof.
  unfold conflict_guild_channel. now rewrite andb_true_iff, !sql_eq_Some.
Qed.

Lemma set_channel_locale_exec g c l t :
  exec (set_channel_locale g c l) t
  = if existsb (conflict_guild_channel g c) t
    then map (updated (conflict_guild_channel g c) l) t
    else (t ++ [mkRow None (Some c) (Some g) l])%list.
Proof. reflexivity. Qed.

(** After the statement the pair [(g, c)] has one row, and it holds [l]. *)
Lemma set_channel_locale_row g c l t :
  at_most_one (conflict_guild_channel g c) t ->
  exists r, filter (conflict_guild_channel g c) (exec (set_channel_locale g c l) t) = [r]
            /\ locale_ r = l /\ guild r = Some g /\ channel_ r = Some c.
Proof.
  intros Hone. rewrite set_channel_locale_exec.
  destruct (existsb (conflict_guild_channel g c) t) eqn:Hex.
  - rewrite filter_map_commute by (intros; apply conflict_guild_channel_updated).
    destruct (existsb_filter_cons _ _ Hex) as [x [rest Hf]].
    unfold at_most_one in Hone. rewrite Hf in *.
    destruct rest; [| simpl in Hone; lia].
    destruct (filter_hd_In _ _ _ _ Hf) as [_ Hx].
    exists (updated (conflict_guild_channel g c) l x). simpl. split; [reflexivity |].
    unfold updated. rewrite Hx. simpl.
    apply conflict_guild_channel_iff in Hx. tauto.
  - rewrite filter_app_one, (existsb_filter _ _ Hex).
    unfold conflict_guild_channel at 1. simpl. rewrite !Z.eqb_refl. simpl.
    exists (mkRow None (Some c) (Some g) l). now repeat split.
Qed.

(** The statement keeps the pairs [(guild, channel)] unique. *)
Lemma set_channel_locale_unique g c l t :
  unique_guild_channel t -> unique_guild_channel (exec (set_channel_locale g c l) t).
Proof.
  intros Huniq g' c'. unfold at_most_one. rewrite set_channel_locale_exec.
  destruct (existsb (conflict_guild_channel g c) t) eqn:Hex.
  - rewrite filter_map_commute by (intros; apply conflict_guild_channel_updated).
    rewrite length_map. apply Huniq.
  - rewrite filter_app_one.
    destruct (conflict_guild_channel g' c' (mkRow None (Some c) (Some g) l)) eqn:Hnew.
    + apply conflict_guild_channel_iff in Hnew. simpl in Hnew.
      destruct Hnew as [Hg Hc]. injection Hg as ->. injection Hc as ->.
      rewrite (existsb_filter _ _ Hex). simpl. lia.
    + rewrite app_nil_r. apply Huniq.
Qed.

(** Rows of the other pairs are left as they were. *)
Lemma set_channel_locale_frame g c l t :
  filter (fun r => negb (conflict_guild_channel g c r)) (exec (set_channel_locale g c l) t)
  = filter (fun r => negb (conflict_guild_channel g c r)) t.
Proof.
  rewrite set_channel_locale_exec.
  destruct (existsb (conflict_guild_channel g c) t) eqn:Hex.
  - clear Hex. induction t as [|x t IH]; simpl; [reflexivity |].
    rewrite conflict_guild_channel_updated.
    destruct (conflict_guild_channel g c x) eqn:Hx; simpl; [exact IH |].
    unfold updated at 1. rewrite Hx. now rewrite IH.
  - rewrite filter_app_one. unfold conflict_guild_channel at 2. simpl.
    rewrite !Z.eqb_refl. simpl. apply app_nil_r.
Qed.

(** Running the statement again changes nothing. *)
Lemma set_channel_locale_idempotent g c l t :
  exec (set_channel_locale g c l) (exec (set_channel_locale g c l) t)
  = exec (set_channel_locale g c l) t.
Proof.
  assert (Hfix : forall t0,
             (forall r, In r t0 -> conflict_guild_channel g c r = true -> locale_ r = l) ->
             map (updated (conflict_guild_channel g c) l) t0 = t0).
  { intros t0 H. rewrite <- (map_id t0) at 2. apply map_ext_in. intros r Hr.
    unfold updated. destruct (conflict_guild_channel g c r) eqn:Hc; [| reflexivity].
    rewrite <- (H r Hr Hc). now destruct r. }
  rewrite (set_channel_locale_exec g c l t).
  destruct (existsb (conflict_guild_channel g c) t) eqn:Hex.
  - rewrite set_channel_locale_exec.
    assert (Hex' : existsb (conflict_guild_channel g c)
                     (map (updated (conflict_guild_channel g c) l) t) = true).
    { apply existsb_exists in Hex. destruct Hex as [r [Hin Hr]].
      apply existsb_exists. exists (updated (conflict_guild_channel g c) l r).
      split; [now apply in_map | now rewrite conflict_guild_channel_updated]. }
    rewrite Hex'. apply Hfix. intros r Hr Hc.
    apply in_map_iff in Hr. destruct Hr as [x [<- Hx]].
    rewrite conflict_guild_channel_updated in Hc. unfold updated. now rewrite Hc.
  - rewrite set_channel_locale_exec.
    assert (Hex' : existsb (conflict_guild_channel g c)
                     (t ++ [mkRow None (Some c) (Some g) l]) = true).
    { rewrite existsb_app. simpl. unfold conflict_guild_channel at 2. simpl.
      rewrite !Z.eqb_refl. simpl. apply orb_true_r. }
    rewrite Hex'. apply Hfix. intros r Hr Hc.
    apply in_app_or in Hr. destruct Hr as [Hr | [<- | []]]; [| reflexivity].
    assert (existsb (conflict_guild_channel g c) t = true)
      by (apply existsb_exists; now exists r).
    congruence.
Qed.

(** C5, as the code has it.  [set_channel_locale] is an upsert on the
    pair [(guild, channel)]: on a table where each pair has at most one
    row it succeeds and leaves exactly one row for the pair, holding the
    new locale; a later call for the same pair overwrites that locale,
    so the latest wins; calling it again with the same locale changes
    nothing; rows of other pairs stay as they were and pairs stay
    unique. *)
Theorem set_channel_locale_upsert (t : table) (g c : Z) (l : string) :
  unique_guild_channel t ->
  let t' := exec (set_channel_locale g c l) t in
  run (set_channel_locale g c l) t = Ok tt
  /\ (exists r, filter (conflict_guild_channel g c) t' = [r]
                /\ locale_ r = l /\ guild r = Some g /\ channel_ r = Some c)
  /\ (forall l2, exists r,
        filter (conflict_guild_channel g c) (exec (set_channel_locale g c l2) t') = [r]
        /\ locale_ r = l2)
  /\ exec (set_channel_locale g c l) t' = t'
  /\ filter (fun r => negb (conflict_guild_channel g c r)) t'
     = filter (fun r => negb (conflict_guild_channel g c r)) t
  /\ unique_guild_channel t'.
Proof.
  intros Huniq t'. subst t'. repeat split.
  - apply set_channel_locale_row, Huniq.
  - intros l2.
    destruct (set_channel_locale_row g c l2 (exec (set_channel_locale g c l) t))
      as [r [Hr [Hl _]]].
    + now apply set_channel_locale_unique.
    + now exists r.
  - apply set_channel_locale_idempotent.
  - apply set_channel_locale_frame.
  - now apply set_channel_locale_unique.
Qed.

(** C5 fails as stated.  Two calls for channel 10 that name different
    guilds leave two rows for that channel. *)
Lemma set_channel_locale_two_guilds :
  exec (set_channel_locale 2 10 "de_DE") (exec (set_channel_locale 1 10 "en_US") [])
  = [ mkRow None (Some 10) (Some 1) "en_US"; mkRow None (Some 10) (Some 2) "de_DE" ]
  /\ List.length
       (filter (where_channel (Some 10))
          (exec (set_channel_locale 2 10 "de_DE")
             (exec (set_channel_locale 1 10 "en_US") []))) = 2%nat.
Proof. split; reflexivity. Qed.

Lemma sample_rows_unique_guild_channel : unique_guild_channel Sample.rows.
Proof.
  intros g c. unfold at_most_one, conflict_guild_channel. cbn -[Z.eqb].
  rewrite ?andb_false_r. destruct ((900 =? g) && (800 =? c)); simpl; lia.
Qed.

(** Witness of [set_channel_locale_upsert]: channel 800 of guild 900 has
    a row, which the call overwrites. *)
Lemma set_channel_locale_upsert_witness :
  exists r,
    filter (conflict_guild_channel 900 800)
      (exec (set_channel_locale 900 800 "de_DE") Sample.rows) = [r]
    /\ locale_ r = "de_DE" /\ guild r = Some 900 /\ channel_ r = Some 800.
Proof.
  exact (proj1 (proj2 (set_channel_locale_upsert Sample.rows 900 800 "de_DE"
                         sample_rows_unique_guild_channel))).
Defined.

Lemma set_guild_locale_exec g l t :
  exec (set_guild_locale g l) t
  = (delete_where (where_guild_default (Some g)) t ++ [mkRow None None (Some g) l])%list.
Proof. reflexivity. Qed.

Lemma set_guild_locale_run g l t : run (set_guild_locale g l) t = Ok tt.
Proof. reflexivity. Qed.

(** One call leaves the guild one default row, the fresh one. *)
Lemma set_guild_locale_own g l t :
  filter (where_guild_default (Some g)) (exec (set_guild_locale g l) t)
  = [mkRow None None (Some g) l].
Proof.
  rewrite set_guild_locale_exec, filter_app_one. unfold delete_where.
  rewrite filter_filter_negb. unfold where_guild_default at 1. simpl.
  now rewrite Z.eqb_refl.
Qed.

(** A call for another guild leaves the guild's default rows alone. *)
Lemma set_guild_locale_other g g' l t :
  g' <> g ->
  filter (where_guild_default (Some g)) (exec (set_guild_locale g' l) t)
  = filter (where_guild_default (Some g)) t.
Proof.
  intros Hne. rewrite set_guild_locale_exec, filter_app_one. unfold delete_where.
  rewrite filter_filter_disjoint.
  - unfold where_guild_default at 2. simpl.
    destruct (Z.eqb_spec g' g); [contradiction |]. simpl. apply app_nil_r.
  - intros r Hr. unfold where_guild_default in *.
    apply andb_true_iff in Hr. destruct Hr as [Hr _].
    apply andb_true_iff in Hr. destruct Hr as [Hr _].
    apply sql_eq_Some in Hr. rewrite Hr. simpl.
    destruct (Z.eqb_spec g g'); [congruence | reflexivity].
Qed.

Lemma set_guild_locales_cons g l calls t :
  exec (set_guild_locales ((g, l) :: calls)) t
  = exec (set_guild_locales calls) (exec (set_guild_locale g l) t)
  /\ run (set_guild_locales ((g, l) :: calls)) t
     = run (set_guild_locales calls) (exec (set_guild_locale g l) t).
Proof. split; reflexivity. Qed.

Lemma set_guild_locales_run calls t : run (set_guild_locales calls) t = Ok tt.
Proof.
  revert t. induction calls as [|[g l] calls IH]; intros t; [reflexivity |].
  rewrite (proj2 (set_guild_locales_cons g l calls t)). apply IH.
Qed.

(** Calls that never name guild [g] leave its default rows alone. *)
Lemma set_guild_locales_untouched g calls t :
  last_set g calls = None ->
  filter (where_guild_default (Some g)) (exec (set_guild_locales calls) t)
  = filter (where_guild_default (Some g)) t.
Proof.
  revert t. induction calls as [|[g' l] calls IH]; intros t Hlast; [reflexivity |].
  simpl in Hlast. destruct (last_set g calls); [discriminate |].
  destruct (Z.eqb_spec g' g); [discriminate |].
  rewrite (proj1 (set_guild_locales_cons g' l calls t)), IH by reflexivity.
  now apply set_guild_locale_other.
Qed.

(** C6.  [set_guild_locale] deletes the guild's default rows and inserts
    a fresh one: after any sequence of calls, on any table, a guild
    that was named in a call has exactly one default row (channel and
    user both null), and it holds the locale of the last call made for
    that guild; every call succeeds. *)
Theorem set_guild_locale_exactly_one (calls : list (Z * string)) (t : table)
  (g : Z) (l : string) :
  last_set g calls = Some l ->
  run (set_guild_locales calls) t = Ok tt
  /\ filter (where_guild_default (Some g)) (exec (set_guild_locales calls) t)
     = [mkRow None None (Some g) l].
Proof.
  intros Hlast. split; [apply set_guild_locales_run |].
  revert t. induction calls as [|[g' l'] calls IH]; intros t; [discriminate |].
  rewrite (proj1 (set_guild_locales_cons g' l' calls t)).
  simpl in Hlast. destruct (last_set g calls) as [l''|] eqn:Hrest.
  - injection Hlast as ->. now apply IH.
  - destruct (Z.eqb_spec g' g) as [->|]; [| discriminate].
    injection Hlast as ->.
    rewrite set_guild_locales_untouched by assumption.
    apply set_guild_locale_own.
Qed.

(** Witness of [set_guild_locale_exactly_one]: guild 900 is set twice,
    guild 1 in between; 900 keeps one default row with the last locale. *)
Lemma set_guild_locale_exactly_one_witness :
  run (set_guild_locales [(900, "de_DE"); (1, "es_ES"); (900, "fr_FR")]) Sample.rows
  = Ok tt
  /\ filter (where_guild_default (Some 900))
       (exec (set_guild_locales [(900, "de_DE"); (1, "es_ES"); (900, "fr_FR")])
          Sample.rows)
     = [mkRow None None (Some 900) "fr_FR"].
Proof.
  apply (set_guild_locale_exactly_one
           [(900, "de_DE"); (1, "es_ES"); (900, "fr_FR")] Sample.rows 900 "fr_FR").
  reflexivity.
Defined.

Example guild_locale_after_set :
  run (guild_locale 900) (exec (set_guild_locale 900 "fr_FR") Sample.rows)
  = Ok (Some "fr_FR").
Proof. reflexivity. Qed.

(** C9.  [delete_user_account] succeeds and removes the rows whose user
    key is the given user, and only those: no row with that key is
    left, every other row stays, in place; in particular the
    channel-scoped and the guild-default rows are the same before and
    after, whatever their identifiers. *)
Theorem delete_user_account_frame (t : table) (u : Z) :
  let t' := exec (delete_user_account u) t in
  run (delete_user_account u) t = Ok tt
  /\ (forall r, In r t' -> user r <> Some u)
  /\ t' = filter (fun r => negb (where_user (Some u) r)) t
  /\ (forall r, In r t -> user r <> Some u -> In r t')
  /\ filter channel_scoped t' = filter channel_scoped t
  /\ filter guild_default t' = filter guild_default t.
Proof.
  intros t'. subst t'.
  assert (Hnull : forall r, is_null (user r) = true -> where_user (Some u) r = false).
  { intros r Hr. apply is_null_iff in Hr. unfold where_user. now rewrite Hr. }
  repeat split.
  - intros r Hr Hu. apply filter_In in Hr. destruct Hr as [_ Hr].
    apply negb_true_iff in Hr. apply sql_eq_Some in Hu.
    unfold where_user in Hr. congruence.
  - intros r Hr Hu. apply filter_In. split; [assumption |].
    apply negb_true_iff. unfold where_user.
    destruct (sql_eq (user r) (Some u)) eqn:E; [| reflexivity].
    apply sql_eq_Some in E. contradiction.
  - apply filter_filter_disjoint. intros r Hr. apply Hnull.
    unfold channel_scoped in Hr. apply andb_true_iff in Hr. apply Hr.
  - apply filter_filter_disjoint. intros r Hr. apply Hnull.
    unfold guild_default in Hr. apply andb_true_iff in Hr. apply Hr.
Qed.

(** User 1 is deleted; guild 1 keeps its default row. *)
Example delete_user_account_same_number :
  exec (delete_user_account 1) Sample.rows
  = [ mkRow None (Some 800) (Some 900) "es_ES";
      mkRow None None (Some 900) "hu_HU";
      mkRow (Some 77) None None "fr_FR";
      mkRow None None (Some 1) "en_US" ].
Proof. reflexivity. Qed.

(** *** The channel gate *)

(** The command raises exactly when the caller lacks Manage Messages or
    is not the bot's owner. *)
Lemma set_locale_command_gate (is_owner : Z -> bool) (ctx : command_context)
  (c : Z) (l : string) (t : table) :
  (manage_messages ctx && is_owner (author_id ctx) = false ->
   set_locale_command is_owner ctx (Some c) l t
   = (Raise (MissingPermissions ["manage_messages"]), t))
  /\ (manage_messages ctx && is_owner (author_id ctx) = true ->
      set_locale_command is_owner ctx (Some c) l t
      = (Ok tt, exec (set_channel_locale (guild_id ctx) c l) t)).
Proof.
  unfold set_locale_command.
  destruct (manage_messages ctx), (is_owner (author_id ctx)); simpl;
    split; intros H; try discriminate; reflexivity.
Qed.

(** C4 fails on the code.  A caller who has Manage Messages and is not
    the bot's owner is refused and no row is written; under the
    specification's gate, as under that of the guild command, the row
    is written. *)
Theorem set_locale_command_refuses_manage_messages :
  let caller := mkCommandContext 1 true true 900 in
  let nobody_owns := fun _ : Z => false in
  set_locale_command nobody_owns caller (Some 800) "de_DE" []
  = (Raise (MissingPermissions ["manage_messages"]), [])
  /\ set_locale_command_spec caller (Some 800) "de_DE" []
     = (Ok tt, [mkRow None (Some 800) (Some 900) "de_DE"])
  /\ set_guild_locale_command caller "de_DE" []
     = (Ok tt, [mkRow None None (Some 900) "de_DE"]).
Proof. repeat split. Qed.

(** *** Resolution on the sample table *)

Lemma sample_rows_ok : table_ok Sample.rows.
Proof.
  split.
  - intros u. unfold at_most_one, where_user. cbn -[Z.eqb].
    destruct (Z.eqb_spec 1 u), (Z.eqb_spec 77 u); simpl; lia.
  - intros c. unfold at_most_one, where_channel. cbn -[Z.eqb].
    destruct (800 =? c); simpl; lia.
  - intros g. unfold at_most_one, where_guild_default. cbn -[Z.eqb].
    rewrite ?andb_false_r, ?andb_true_r.
    destruct (Z.eqb_spec 900 g), (Z.eqb_spec 1 g); simpl; lia.
  - intros r Hr. simpl in Hr.
    repeat (destruct Hr as [<- | Hr]; [discriminate |]). contradiction.
Qed.

(** Witness of [locale_precedence]: user 1 has a row, and it wins over
    the rows of channel 800 and guild 900. *)
Lemma locale_precedence_witness :
  run (locale_or_default "en_US" 1 (Some 800) (Some 900)) Sample.rows = Ok "de_DE".
Proof.
  apply (proj1 (locale_precedence "en_US" Sample.rows 1 (Some 800) (Some 900)
                  sample_rows_ok)
           (mkRow (Some 1) None None "de_DE")).
  - simpl. now left.
  - reflexivity.
Defined.

Example locale_channel_tier :
  run (locale_or_default "en_US" 5 (Some 800) (Some 900)) Sample.rows = Ok "es_ES".
Proof. reflexivity. Qed.

Example locale_guild_tier :
  run (locale_or_default "en_US" 5 (Some 801) (Some 900)) Sample.rows = Ok "hu_HU".
Proof. reflexivity. Qed.

Example locale_default_tier :
  run (locale_or_default "en_US" 5 (Some 801) (Some 901)) Sample.rows = Ok "en_US".
Proof. reflexivity. Qed.

Example locale_direct_message :
  run (locale "en_US" (mkMessage 21154535154122906 5 "hi" None None 800)) Sample.rows
  = Ok "en_US".
Proof. reflexivity. Qed.

(** Witness of [locale_webhook_key]: the message of webhook 77 carries
    author 1, who has a row of their own; the webhook's row is read. *)
Lemma locale_webhook_key_witness :
  run (locale "en_US" Sample.hook_message) Sample.rows = Ok "fr_FR".
Proof.
  apply (proj2 (proj1 (locale_webhook_key "en_US" Sample.rows Sample.hook_message
                         sample_rows_ok)
                  77 eq_refl ltac:(lia))
           (mkRow (Some 77) None None "fr_FR")).
  - simpl. tauto.
  - reflexivity.
Defined.

(** * Further properties *)

(** ** Integer literals *)

Lemma digits_x_refused (base0 : bool) (p : ascii) (s : list ascii) (n : Z) :
  Ascii.eqb p "x" || Ascii.eqb p "X" = true
  \/ Ascii.eqb p "o" || Ascii.eqb p "O" = true
  \/ Ascii.eqb p "b" || Ascii.eqb p "B" = true ->
  Py.digits 10 0 false false ("0"%char :: p :: s) = Some n -> False.
Proof.
  intros H Hn.
  assert (Hp : In p ["x"; "X"; "o"; "O"; "b"; "B"]%char).
  { simpl. destruct H as [H | [H | H]]; apply orb_true_iff in H;
      destruct H as [H | H]; apply Ascii.eqb_eq in H; subst p; tauto. }
  simpl in Hp.
  repeat (destruct Hp as [<- | Hp]; [cbn in Hn; discriminate |]).
  contradiction.
Qed.

(** A literal that [int(s)] reads is read by [int(s, base=0)] as the
    same number, when it reads it at all. *)
Lemma unsigned_literal_agree (s : list ascii) (n k : Z) :
  Py.unsigned_literal false s = Some n ->
  Py.unsigned_literal true s = Some k ->
  k = n.
Proof.
  unfold Py.unsigned_literal. intros Hn Hk.
  destruct s as [|c [|p s']]; try congruence;
    destruct c as [[] [] [] [] [] [] [] []]; cbv beta iota in Hk; try congruence.
  destruct (Ascii.eqb p "x" || Ascii.eqb p "X") eqn:Hx.
  { exfalso. eapply (digits_x_refused true); [left; exact Hx | exact Hn]. }
  destruct (Ascii.eqb p "o" || Ascii.eqb p "O") eqn:Ho.
  { exfalso. eapply (digits_x_refused true); [right; left; exact Ho | exact Hn]. }
  destruct (Ascii.eqb p "b" || Ascii.eqb p "B") eqn:Hb.
  { exfalso. eapply (digits_x_refused true); [right; right; exact Hb | exact Hn]. }
  destruct (Py.all_zero _); congruence.
Qed.

Lemma signed_literal_agree (s : list ascii) (n k : Z) :
  Py.signed_literal false s = Some n ->
  Py.signed_literal true s = Some k ->
  k = n.
Proof.
  unfold Py.signed_literal. intros Hn Hk.
  destruct s as [|c s']; [now apply (unsigned_literal_agree [])|].
  destruct c as [[] [] [] [] [] [] [] []]; cbv beta iota in Hn, Hk;
    try (now apply (unsigned_literal_agree _ n k Hn Hk)).
  destruct (Py.unsigned_literal false s') as [n'|] eqn:En; [| discriminate].
  destruct (Py.unsigned_literal true s') as [k'|] eqn:Ek; [| discriminate].
  simpl in Hn, Hk. rewrite (unsigned_literal_agree s' n' k' En Ek) in Hk. congruence.
Qed.

Lemma int_base0_agree (s : string) (n k : Z) :
  Py.int s = Some n -> Py.int_base0 s = Some k -> k = n.
Proof. unfold Py.int, Py.int_base0. apply signed_literal_agree. Qed.

(** ** More on utils/converter.py *)

Section MoreConverterFacts.

Variable SMALLEST_SNOWFLAKE : Z.
Variable get_message_by_offset : channel -> Z -> result message.
Variable MemberConverter_convert : context -> string -> result Z.
Variable RE_CUSTOM_EMOTE_pieces : string -> list piece.
Variable casefold : string -> string.

(** X1.  [_search_for_message] returns the first message of the
    target's history that the predicate accepts: every message before
    it is refused.  It raises [BadArgument "Message not found."] exactly
    when the predicate refuses the whole history, the empty one
    included. *)
Theorem search_for_message_first_accepted (target : context)
  (predicate : message -> bool) :
  (forall m, _search_for_message target predicate = Ok m <->
     exists pre post,
       ctx_history target = (pre ++ m :: post)%list
       /\ (forall x, In x pre -> predicate x = false)
       /\ predicate m = true)
  /\ (_search_for_message target predicate = Raise (BadArgument "Message not found.")
      <-> forall x, In x (ctx_history target) -> predicate x = false)
  /\ (forall e, _search_for_message target predicate = Raise e ->
                e = BadArgument "Message not found.").
Proof.
  unfold _search_for_message.
  assert (Huniq : forall h pre m post pre' m' post',
             h = (pre ++ m :: post)%list -> h = (pre' ++ m' :: post')%list ->
             (forall x, In x pre -> predicate x = false) -> predicate m = true ->
             (forall x, In x pre' -> predicate x = false) -> predicate m' = true ->
             m = m').
  { intros h pre. revert h.
    induction pre as [|a pre IH]; intros h m post pre' m' post' -> E Hpre Hm Hpre' Hm'.
    - destruct pre' as [|b pre']; simpl in E.
      + congruence.
      + injection E as -> _. rewrite (Hpre' b) in Hm by now left. discriminate.
    - destruct pre' as [|b pre']; simpl in E.
      + injection E as <- _. rewrite (Hpre a) in Hm' by now left. discriminate.
      + injection E as <- E. eapply (IH _ m post pre' m' post' eq_refl E); try assumption.
        * intros x Hx. apply Hpre. now right.
        * intros x Hx. apply Hpre'. now right. }
  destruct (search_history_first (ctx_history target) predicate)
    as [(pre & m0 & post & Hh & Hpre & Hm0 & Hres) | [Hall Hres]]; rewrite Hres.
  - repeat split.
    + intros H. injection H as <-. now exists pre, post.
    + intros (pre' & post' & Hh' & Hpre' & Hm). f_equal.
      exact (Huniq _ _ _ _ _ _ _ Hh Hh' Hpre Hm0 Hpre' Hm).
    + discriminate.
    + intros H. rewrite (H m0) in Hm0; [discriminate |].
      rewrite Hh. apply in_or_app. right. now left.
    + discriminate.
  - repeat split.
    + discriminate.
    + intros (pre' & post' & Hh' & _ & Hm). rewrite (Hall m) in Hm; [discriminate |].
      rewrite Hh'. apply in_or_app. right. now left.
    + intros _. exact Hall.
    + intros e H. now injection H as <-.
Qed.

(** X2.  What [MemberMessage.convert] does: an error of the member
    lookup is raised as it is; when the lookup succeeds, with whatever
    member, the result is the first message of the history that the
    author of the command wrote and that is not the invoking message,
    or [BadArgument "Message not found."] when the history has none. *)
Theorem MemberMessage_convert_own_message (ctx : context) (argument : string) :
  (forall e, MemberConverter_convert ctx argument = Raise e ->
             MemberMessage_convert MemberConverter_convert ctx argument = Raise e)
  /\ (forall member, MemberConverter_convert ctx argument = Ok member ->
      let own (m : message) :=
        message_id m <> message_id (ctx_message ctx)
        /\ message_author m = message_author (ctx_message ctx) in
      (exists pre m post,
          ctx_history ctx = (pre ++ m :: post)%list
          /\ (forall x, In x pre -> ~ own x)
          /\ own m
          /\ MemberMessage_convert MemberConverter_convert ctx argument = Ok m)
      \/ ((forall x, In x (ctx_history ctx) -> ~ own x)
          /\ MemberMessage_convert MemberConverter_convert ctx argument
             = Raise (BadArgument "Message not found."))).
Proof.
  split.
  - intros e He. unfold MemberMessage_convert. now rewrite He.
  - intros member Hmember own. unfold MemberMessage_convert. rewrite Hmember.
    simpl. unfold _search_for_message.
    assert (Hp : forall m, MemberMessage_predicate ctx m = true <-> own m).
    { intros m. unfold MemberMessage_predicate, own, ctx_author.
      now rewrite andb_true_iff, negb_true_iff, Z.eqb_neq, Z.eqb_eq. }
    assert (Hn : forall m, MemberMessage_predicate ctx m = false -> ~ own m).
    { intros m Hf Ho. apply Hp in Ho. congruence. }
    destruct (search_history_first (ctx_history ctx) (MemberMessage_predicate ctx))
      as [(pre & m & post & Hh & Hpre & Hm & Hres) | [Hall Hres]].
    + left. exists pre, m, post. repeat split; try assumption.
      * intros x Hx. apply Hn. now apply Hpre.
      * apply Hp in Hm. apply Hm.
      * apply Hp in Hm. apply Hm.
    + right. split; [| assumption]. intros x Hx. apply Hn. now apply Hall.
Qed.

(** X3.  With a positive floor, no argument is taken by both numeric
    converters: whatever [_validate_snowflake] accepts,
    [OffsetMessage.convert] refuses, without asking the helper. *)
Theorem offset_and_identifier_disjoint (ctx : context) (argument : string) (id : Z) :
  0 < SMALLEST_SNOWFLAKE ->
  _validate_snowflake SMALLEST_SNOWFLAKE argument = Ok id ->
  OffsetMessage_convert get_message_by_offset ctx argument
  = Raise (BadArgument "Not a message offset.")
  \/ OffsetMessage_convert get_message_by_offset ctx argument
     = Raise (BadArgument "Not a valid integer.").
Proof.
  intros Hpos. unfold _validate_snowflake, OffsetMessage_convert.
  destruct (Py.int argument) as [n|] eqn:Hn; [| discriminate].
  destruct (Z.ltb_spec n SMALLEST_SNOWFLAKE); [discriminate |]. intros _.
  destruct (Py.int_base0 argument) as [k|] eqn:Hk; [| now right].
  left. rewrite (int_base0_agree _ _ _ Hn Hk). cbv zeta.
  destruct (Z.ltb_spec (n - 1) 0); [lia | reflexivity].
Qed.

(** X4.  With a positive floor, the union resolves an identifier at or
    above the floor to the message the channel gives for it, whatever
    the member and keyword converters would have found. *)
Theorem Message_convert_identifier (ctx : context) (argument : string) (n : Z)
  (m : message) :
  0 < SMALLEST_SNOWFLAKE ->
  Py.int argument = Some n ->
  SMALLEST_SNOWFLAKE <= n ->
  get_message (ctx_channel ctx) n = Ok m ->
  Message_convert SMALLEST_SNOWFLAKE get_message_by_offset MemberConverter_convert
    RE_CUSTOM_EMOTE_pieces casefold ctx argument = Ok m.
Proof.
  intros Hpos Hn Hfloor Hget.
  assert (Hid : _validate_snowflake SMALLEST_SNOWFLAKE argument = Ok n).
  { unfold _validate_snowflake. rewrite Hn.
    destruct (Z.ltb_spec n SMALLEST_SNOWFLAKE); [lia | reflexivity]. }
  assert (Hoff : is_ok (OffsetMessage_convert get_message_by_offset ctx argument) = false).
  { unfold OffsetMessage_convert.
    destruct (Py.int_base0 argument) as [k|] eqn:Hk; [| reflexivity].
    rewrite (int_base0_agree _ _ _ Hn Hk). cbv zeta.
    destruct (Z.ltb_spec (n - 1) 0); [lia | reflexivity]. }
  unfold Message_convert. cbn [union_convert].
  destruct (OffsetMessage_convert get_message_by_offset ctx argument); [discriminate |].
  unfold IDMessage_convert. rewrite Hid. simpl. now rewrite Hget.
Qed.


(** X6.  The errors of [IDMessage.convert] are three: the two of the
    validation, and [NameError] for the unbound name [discord] whenever
    the fetch raises.  The messages written for a missing and for a
    forbidden message are never raised. *)
Theorem IDMessage_convert_errors (ctx : context) (argument : string) (e : exn) :
  IDMessage_convert SMALLEST_SNOWFLAKE ctx argument = Raise e ->
  (e = BadArgument "Not a valid integer." /\ Py.int argument = None)
  \/ (e = BadArgument "Not a valid message ID."
      /\ exists n, Py.int argument = Some n /\ n < SMALLEST_SNOWFLAKE)
  \/ (e = NameError "discord"
      /\ exists n e', Py.int argument = Some n /\ SMALLEST_SNOWFLAKE <= n
                      /\ get_message (ctx_channel ctx) n = Raise e').
Proof.
  unfold IDMessage_convert, _validate_snowflake.
  destruct (Py.int argument) as [n|]; simpl.
  - destruct (Z.ltb_spec n SMALLEST_SNOWFLAKE) as [Hlt | Hge]; simpl.
    + intros E. injection E as <-. right. left. split; [reflexivity |]. now exists n.
    + destruct (get_message (ctx_channel ctx) n) as [m|e'] eqn:Hget; [discriminate |].
      simpl. intros E. injection E as <-. right. right. split; [reflexivity |].
      now exists n, e'.
  - intros E. injection E as <-. now left.
Qed.

(** X7.  An empty keyword matches any content: on a history that
    starts with the invoking message, the converter returns the message
    just before it. *)
Theorem KeywordMessage_convert_empty_keyword (ctx : context) (m : message)
  (rest : list message) :
  casefold "" = "" ->
  ctx_history ctx = ctx_message ctx :: m :: rest ->
  message_id m <> message_id (ctx_message ctx) ->
  KeywordMessage_convert RE_CUSTOM_EMOTE_pieces casefold ctx "" = Ok m.
Proof.
  intros Hfold Hh Hid. unfold KeywordMessage_convert, _search_for_message.
  rewrite Hh. cbn [search_history]. unfold KeywordMessage_predicate at 1.
  rewrite Z.eqb_refl. cbn [negb andb].
  unfold KeywordMessage_predicate at 1. rewrite Hfold.
  apply Z.eqb_neq in Hid. rewrite Hid. cbn [negb andb].
  assert (Hc : forall h, Py.contains "" h = true) by (intros [|c h]; reflexivity).
  now rewrite Hc.
Qed.

(** X25.  A decimal integer from 1 up to the floor is taken by neither
    numeric converter, however it is written: the union hands the
    argument to the member converter and, when that one raises, to the
    keyword converter. *)
Theorem Message_convert_below_floor (ctx : context) (argument : string) (n : Z) :
  Py.int argument = Some n ->
  1 <= n < SMALLEST_SNOWFLAKE ->
  Message_convert SMALLEST_SNOWFLAKE get_message_by_offset MemberConverter_convert
    RE_CUSTOM_EMOTE_pieces casefold ctx argument
  = union_convert
      [ MemberMessage_convert MemberConverter_convert;
        KeywordMessage_convert RE_CUSTOM_EMOTE_pieces casefold ] ctx argument.
Proof.
  intros Hn [Hlo Hhi].
  assert (Hoff : is_ok (OffsetMessage_convert get_message_by_offset ctx argument) = false).
  { unfold OffsetMessage_convert.
    destruct (Py.int_base0 argument) as [k|] eqn:Hk; [| reflexivity].
    rewrite (int_base0_agree _ _ _ Hn Hk). cbv zeta.
    destruct (Z.ltb_spec (n - 1) 0); [lia | reflexivity]. }
  assert (Hid : IDMessage_convert SMALLEST_SNOWFLAKE ctx argument
                = Raise (BadArgument "Not a valid message ID.")).
  { unfold IDMessage_convert, _validate_snowflake. rewrite Hn.
    destruct (Z.ltb_spec n SMALLEST_SNOWFLAKE); [reflexivity | lia]. }
  unfold Message_convert. cbn [union_convert]. rewrite Hid.
  now destruct (OffsetMessage_convert get_message_by_offset ctx argument).
Qed.

End MoreConverterFacts.

(** ** More on the table *)

Lemma at_most_one_filter (q f : row -> bool) (t : table) :
  at_most_one q t -> at_most_one q (filter f t).
Proof.
  unfold at_most_one. intros H.
  assert (Hle : (List.length (filter q (filter f t)) <= List.length (filter q t))%nat).
  { clear H. induction t as [|x t IH]; simpl; [lia |].
    destruct (f x) eqn:Hf; simpl; destruct (q x) eqn:Hq; simpl; lia. }
  lia.
Qed.

Lemma where_user_updated p l u r : where_user u (updated p l r) = where_user u r.
Proof. unfold updated. now destruct (p r). Qed.

Lemma where_channel_updated p l c r : where_channel c (updated p l r) = where_channel c r.
Proof. unfold updated. now destruct (p r). Qed.

Lemma where_guild_default_updated p l g r :
  where_guild_default g (updated p l r) = where_guild_default g r.
Proof. unfold updated. now destruct (p r). Qed.

Lemma well_shaped_updated p l r : well_shaped (updated p l r) = well_shaped r.
Proof. unfold updated. now destruct (p r). Qed.

Section Upsert.

(** An upsert whose conflict test looks at the keys only and accepts
    the proposed row. *)
Variable p : row -> bool.
Variable new : row.
Hypothesis p_keys : forall l r, p (updated p l r) = p r.
Hypothesis p_new : p new = true.

Lemma existsb_false_In (t : table) (r : row) :
  existsb p t = false -> In r t -> p r = false.
Proof.
  intros Hex Hin. destruct (p r) eqn:Hp; [| reflexivity].
  assert (existsb p t = true) by (apply existsb_exists; now exists r). congruence.
Qed.

(** A row of the table after the upsert is the proposed row or a row of
    the table before, with the new locale when it conflicted. *)
Lemma upsert_In (t : table) (r : row) :
  In r (insert_on_conflict_update p new t) ->
  r = new \/ exists r0, In r0 t /\ r = updated p (locale_ new) r0.
Proof.
  unfold insert_on_conflict_update. destruct (existsb p t) eqn:Hex.
  - intros H. apply in_map_iff in H. destruct H as [r0 [<- Hin]]. right. now exists r0.
  - intros H. apply in_app_or in H. destruct H as [H | [<- | []]]; [| now left].
    right. exists r. split; [assumption |]. unfold updated.
    now rewrite (existsb_false_In t r Hex H).
Qed.

(** A clause on the keys that selected at most one row still does,
    provided the rows it shares with the proposed row are rows the
    conflict test finds. *)
Lemma upsert_at_most_one (q : row -> bool) (t : table) :
  (forall l r, q (updated p l r) = q r) ->
  (q new = true -> forall r, In r t -> q r = true -> p r = true) ->
  at_most_one q t ->
  at_most_one q (insert_on_conflict_update p new t).
Proof.
  intros Hq Hshare Hone. unfold at_most_one, insert_on_conflict_update in *.
  destruct (existsb p t) eqn:Hex.
  - rewrite filter_map_commute by (intros; apply Hq). now rewrite length_map.
  - rewrite filter_app_one. destruct (q new) eqn:Hn; [| now rewrite app_nil_r].
    rewrite filter_nil; [simpl; lia |].
    intros r Hr. destruct (q r) eqn:Hqr; [| reflexivity].
    pose proof (Hshare eq_refl r Hr Hqr) as Hp.
    pose proof (existsb_false_In t r Hex Hr). congruence.
Qed.

(** After the upsert the conflict test finds one row, which holds the
    new locale. *)
Lemma upsert_row (t : table) :
  at_most_one p t ->
  exists r, filter p (insert_on_conflict_update p new t) = [r]
            /\ locale_ r = locale_ new
            /\ (r = new \/ exists r0, In r0 t /\ p r0 = true
                                       /\ r = updated p (locale_ new) r0).
Proof.
  intros Hone. unfold insert_on_conflict_update.
  destruct (existsb p t) eqn:Hex.
  - rewrite filter_map_commute by (intros; apply p_keys).
    destruct (existsb_filter_cons _ _ Hex) as [x [rest Hf]].
    unfold at_most_one in Hone. rewrite Hf in *.
    destruct rest; [| simpl in Hone; lia].
    destruct (filter_hd_In _ _ _ _ Hf) as [Hin Hx].
    exists (updated p (locale_ new) x). simpl. split; [reflexivity |]. split.
    + unfold updated. now rewrite Hx.
    + right. now exists x.
  - rewrite filter_app_one, (existsb_filter _ _ Hex), p_new. simpl.
    exists new. repeat split. now left.
Qed.

(** The rows the conflict test does not find stay as they were. *)
Lemma upsert_frame (t : table) :
  filter (fun r => negb (p r)) (insert_on_conflict_update p new t)
  = filter (fun r => negb (p r)) t.
Proof.
  unfold insert_on_conflict_update. destruct (existsb p t) eqn:Hex.
  - clear Hex. induction t as [|x t IH]; simpl; [reflexivity |].
    rewrite p_keys. destruct (p x) eqn:Hx; simpl; [exact IH |].
    unfold updated at 1. rewrite Hx. now rewrite IH.
  - rewrite filter_app_one, p_new. simpl. apply app_nil_r.
Qed.

(** The same upsert a second time changes nothing. *)
Lemma upsert_idempotent (t : table) :
  insert_on_conflict_update p new (insert_on_conflict_update p new t)
  = insert_on_conflict_update p new t.
Proof.
  assert (Hfix : forall t0,
             (forall r, In r t0 -> p r = true -> locale_ r = locale_ new) ->
             map (updated p (locale_ new)) t0 = t0).
  { intros t0 H. rewrite <- (map_id t0) at 2. apply map_ext_in. intros r Hr.
    unfold updated. destruct (p r) eqn:Hc; [| reflexivity].
    rewrite <- (H r Hr Hc). now destruct r. }
  assert (Hex' : existsb p (insert_on_conflict_update p new t) = true).
  { unfold insert_on_conflict_update. destruct (existsb p t) eqn:Hex.
    - apply existsb_exists in Hex. destruct Hex as [r [Hin Hr]].
      apply existsb_exists. exists (updated p (locale_ new) r).
      split; [now apply in_map | now rewrite p_keys].
    - rewrite existsb_app. simpl. rewrite p_new. simpl. apply orb_true_r. }
  unfold insert_on_conflict_update at 1. rewrite Hex'. apply Hfix.
  intros r Hr Hc. apply upsert_In in Hr. destruct Hr as [-> | [r0 [Hin ->]]].
  - reflexivity.
  - rewrite p_keys in Hc. unfold updated. now rewrite Hc.
Qed.

End Upsert.

Lemma conflict_user_updated u p l r : conflict_user u (updated p l r) = conflict_user u r.
Proof. unfold updated. now destruct (p r). Qed.

Lemma set_user_locale_exec u l t :
  exec (set_user_locale u l) t
  = insert_on_conflict_update (conflict_user u) (mkRow (Some u) None None l) t.
Proof. reflexivity. Qed.

Lemma set_channel_locale_exec_upsert g c l t :
  exec (set_channel_locale g c l) t
  = insert_on_conflict_update (conflict_guild_channel g c)
      (mkRow None (Some c) (Some g) l) t.
Proof. reflexivity. Qed.

Lemma conflict_user_new u l : conflict_user u (mkRow (Some u) None None l) = true.
Proof. unfold conflict_user. simpl. apply Z.eqb_refl. Qed.

Lemma conflict_guild_channel_new g c l :
  conflict_guild_channel g c (mkRow None (Some c) (Some g) l) = true.
Proof. unfold conflict_guild_channel. simpl. now rewrite !Z.eqb_refl. Qed.

(** ** More on emote_collector/extensions/locale.py *)

(** On a table that keeps the invariants the two-tier query is the
    choice between the channel's row and the guild's default row. *)
Lemma channel_or_guild_locale_choice (t : table) (c g : Z) :
  table_ok t ->
  run (channel_or_guild_locale (c, g)) t
  = Ok match filter (where_channel (Some c)) t with
       | r :: _ => Some (locale_ r)
       | [] =>
           match filter (where_guild_default (Some g)) t with
           | r :: _ => Some (locale_ r)
           | [] => None
           end
       end.
Proof.
  intros Hok. unfold run, channel_or_guild_locale, fetchval. cbn [coalesce fst snd].
  rewrite (scalar_subquery_at_most_one _ _ (table_ok_channel _ (Some c) Hok)).
  rewrite (scalar_subquery_at_most_one _ _ (table_ok_guild_default _ (Some g) Hok)).
  destruct (filter (where_channel (Some c)) t); cbn [hd_error option_map]; [| reflexivity].
  now destruct (filter (where_guild_default (Some g)) t).
Qed.

(** X8.  [channel_or_guild_locale], on a table that keeps the
    invariants: the locale of the channel's row when there is one,
    whatever rows users have; else that of the guild's default row;
    else nothing.  No error is raised. *)
Theorem channel_or_guild_locale_precedence (t : table) (c g : Z) :
  table_ok t ->
  let found := run (channel_or_guild_locale (c, g)) t in
  let no_channel_row := forall r, In r t -> where_channel (Some c) r = false in
  let no_guild_row := forall r, In r t -> where_guild_default (Some g) r = false in
  (forall r, In r t -> channel_ r = Some c -> found = Ok (Some (locale_ r)))
  /\ (no_channel_row ->
      forall r, In r t -> guild r = Some g -> channel_ r = None -> user r = None ->
                found = Ok (Some (locale_ r)))
  /\ (no_channel_row -> no_guild_row -> found = Ok None).
Proof.
  intros Hok found no_channel_row no_guild_row. subst found.
  rewrite (channel_or_guild_locale_choice t c g Hok). repeat split.
  - intros r Hin Hc.
    rewrite (filter_at_most_one _ _ r (table_ok_channel _ (Some c) Hok) Hin);
      [reflexivity | now apply sql_eq_Some].
  - intros Hnc r Hin Hg Hc Hu. rewrite (filter_nil _ _ Hnc).
    rewrite (filter_at_most_one _ _ r (table_ok_guild_default _ (Some g) Hok) Hin);
      [reflexivity |].
    unfold where_guild_default. rewrite Hg, Hc, Hu. simpl. now rewrite Z.eqb_refl.
  - intros Hnc Hng. now rewrite (filter_nil _ _ Hnc), (filter_nil _ _ Hng).
Qed.

(** X9.  [guild_locale] reads back what [set_guild_locale] wrote, on
    any table, and a guild that was not set reads as before. *)
Theorem guild_locale_after_set_guild_locale (t : table) (g : Z) (l : string) :
  run (guild_locale g) (exec (set_guild_locale g l) t) = Ok (Some l)
  /\ forall g', g' <> g ->
       run (guild_locale g') (exec (set_guild_locale g l) t) = run (guild_locale g') t.
Proof.
  unfold run, guild_locale, fetchval, select_locale. cbn [fst]. split.
  - now rewrite set_guild_locale_own.
  - intros g' Hne. rewrite set_guild_locale_other by congruence. reflexivity.
Qed.

(** X10.  [set_user_locale] is an upsert on the user: on a table where
    the user has at most one row it leaves exactly one, which holds the
    new locale; a later call for the same user overwrites it; the same
    call again changes nothing; the rows of others stay as they were. *)
Theorem set_user_locale_upsert (t : table) (u : Z) (l : string) :
  at_most_one (conflict_user u) t ->
  let t' := exec (set_user_locale u l) t in
  run (set_user_locale u l) t = Ok tt
  /\ (exists r, filter (conflict_user u) t' = [r] /\ locale_ r = l /\ user r = Some u)
  /\ (forall l2, exists r,
        filter (conflict_user u) (exec (set_user_locale u l2) t') = [r] /\ locale_ r = l2)
  /\ exec (set_user_locale u l) t' = t'
  /\ filter (fun r => negb (conflict_user u r)) t'
     = filter (fun r => negb (conflict_user u r)) t.
Proof.
  intros Hone t'. subst t'. rewrite !set_user_locale_exec.
  assert (Hrow : forall l0 t0, at_most_one (conflict_user u) t0 ->
            exists r, filter (conflict_user u)
                        (insert_on_conflict_update (conflict_user u)
                           (mkRow (Some u) None None l0) t0) = [r]
                      /\ locale_ r = l0 /\ user r = Some u).
  { intros l0 t0 H0.
    destruct (upsert_row (conflict_user u) (mkRow (Some u) None None l0)
                (conflict_user_updated u (conflict_user u)) (conflict_user_new u l0) t0 H0)
      as [r [Hf [Hl _]]].
    exists r. repeat split; try assumption.
    destruct (filter_hd_In _ _ _ _ Hf) as [_ Hr]. now apply sql_eq_Some. }
  repeat split.
  - now apply Hrow.
  - intros l2. rewrite set_user_locale_exec.
    destruct (Hrow l2 (insert_on_conflict_update (conflict_user u)
                         (mkRow (Some u) None None l) t)) as [r [Hf [Hl _]]].
    + apply upsert_at_most_one; [ | | exact Hone].
      * intros; apply conflict_user_updated.
      * intros _ r _ Hr. exact Hr.
    + now exists r.
  - apply upsert_idempotent.
    + intros; apply conflict_user_updated.
    + apply conflict_user_new.
  - apply upsert_frame.
    + intros; apply conflict_user_updated.
    + apply conflict_user_new.
Qed.

Lemma locale_nonempty_upsert p new t :
  locale_ new <> "" ->
  (forall r, In r t -> locale_ r <> "") ->
  forall r, In r (insert_on_conflict_update p new t) -> locale_ r <> "".
Proof.
  intros Hnew Ht r Hr. apply upsert_In in Hr. destruct Hr as [-> | [r0 [Hin ->]]].
  - assumption.
  - unfold updated. destruct (p r0); [exact Hnew | now apply Ht].
Qed.

Lemma set_user_locale_ok (t : table) (k : Z) (l : string) :
  table_ok t -> l <> "" -> table_ok (exec (set_user_locale k l) t).
Proof.
  intros Hok Hl. rewrite set_user_locale_exec. split.
  - intros u. apply upsert_at_most_one.
    + intros; apply where_user_updated.
    + intros Hn r _ Hr. unfold where_user in *. simpl in Hn.
      apply Z.eqb_eq in Hn. subst u. exact Hr.
    + apply Hok.
  - intros c. apply upsert_at_most_one.
    + intros; apply where_channel_updated.
    + discriminate.
    + apply Hok.
  - intros g. apply upsert_at_most_one.
    + intros; apply where_guild_default_updated.
    + discriminate.
    + apply Hok.
  - apply locale_nonempty_upsert; [exact Hl | apply Hok].
Qed.

Lemma set_guild_locale_ok (t : table) (k : Z) (l : string) :
  table_ok t -> l <> "" -> table_ok (exec (set_guild_locale k l) t).
Proof.
  intros Hok Hl. split.
  - intros u. rewrite set_guild_locale_exec. unfold at_most_one.
    rewrite filter_app_one. simpl. rewrite app_nil_r.
    apply at_most_one_filter, Hok.
  - intros c. rewrite set_guild_locale_exec. unfold at_most_one.
    rewrite filter_app_one. simpl. rewrite app_nil_r.
    apply at_most_one_filter, Hok.
  - intros g. destruct (Z.eq_dec g k) as [-> | Hne].
    + unfold at_most_one. rewrite set_guild_locale_own. simpl. lia.
    + unfold at_most_one. rewrite set_guild_locale_other by congruence. apply Hok.
  - intros r Hr. rewrite set_guild_locale_exec in Hr. apply in_app_or in Hr.
    destruct Hr as [Hr | [<- | []]]; [| exact Hl].
    apply filter_In in Hr. now apply (locale_nonempty Hok).
Qed.

Lemma delete_user_account_ok (t : table) (k : Z) :
  table_ok t -> table_ok (exec (delete_user_account k) t).
Proof.
  intros Hok. split.
  - intros u. apply at_most_one_filter, Hok.
  - intros c. apply at_most_one_filter, Hok.
  - intros g. apply at_most_one_filter, Hok.
  - intros r Hr. apply filter_In in Hr. now apply (locale_nonempty Hok).
Qed.

Lemma set_channel_locale_ok (t : table) (g c : Z) (l : string) :
  table_ok t ->
  l <> "" ->
  (forall r, In r t -> channel_ r = Some c -> guild r = Some g) ->
  table_ok (exec (set_channel_locale g c l) t).
Proof.
  intros Hok Hl Hguild. rewrite set_channel_locale_exec_upsert. split.
  - intros u. apply upsert_at_most_one.
    + intros; apply where_user_updated.
    + discriminate.
    + apply Hok.
  - intros c'. apply upsert_at_most_one.
    + intros; apply where_channel_updated.
    + intros Hn r Hin Hr. unfold where_channel in *. simpl in Hn.
      apply Z.eqb_eq in Hn. subst c'. apply sql_eq_Some in Hr.
      apply conflict_guild_channel_iff. split; [now apply Hguild | assumption].
    + apply Hok.
  - intros g'. apply upsert_at_most_one.
    + intros; apply where_guild_default_updated.
    + unfold where_guild_default. simpl. rewrite andb_false_r. discriminate.
    + apply Hok.
  - apply locale_nonempty_upsert; [exact Hl | apply Hok].
Qed.

(** X11.  The writers that take one key keep the invariants of the
    table: [set_user_locale] and [set_guild_locale] with a locale that
    is not empty, and [delete_user_account]. *)
Theorem writers_keep_table_ok (t : table) (k : Z) (l : string) :
  table_ok t ->
  l <> "" ->
  table_ok (exec (set_user_locale k l) t)
  /\ table_ok (exec (set_guild_locale k l) t)
  /\ table_ok (exec (delete_user_account k) t).
Proof.
  intros Hok Hl. split; [| split].
  - now apply set_user_locale_ok.
  - now apply set_guild_locale_ok.
  - now apply delete_user_account_ok.
Qed.

(** X12.  [set_channel_locale] keeps the invariants of the table when
    the rows the channel already has are rows of the same guild and the
    locale is not empty; the rows of the channel are then still rows of
    that guild, so that the call can be repeated. *)
Theorem set_channel_locale_table_ok (t : table) (g c : Z) (l : string) :
  table_ok t ->
  l <> "" ->
  (forall r, In r t -> channel_ r = Some c -> guild r = Some g) ->
  table_ok (exec (set_channel_locale g c l) t)
  /\ (forall r, In r (exec (set_channel_locale g c l) t) ->
                channel_ r = Some c -> guild r = Some g).
Proof.
  intros Hok Hl Hguild. split; [now apply set_channel_locale_ok |].
  intros r Hr Hc. rewrite set_channel_locale_exec_upsert in Hr.
  apply upsert_In in Hr. destruct Hr as [-> | [r0 [Hin ->]]]; [reflexivity |].
  unfold updated in *. destruct (conflict_guild_channel g c r0) eqn:E.
  - simpl in *. now apply Hguild.
  - now apply Hguild.
Qed.

(** X13.  Every writer keeps the rows in the three shapes: a user
    alone, a channel with its guild, a guild alone. *)
Theorem writers_keep_shapes (t : table) (g k : Z) (l : string) :
  shaped t ->
  shaped (exec (set_user_locale k l) t)
  /\ shaped (exec (set_channel_locale g k l) t)
  /\ shaped (exec (set_guild_locale k l) t)
  /\ shaped (exec (delete_user_account k) t).
Proof.
  intros Hs. repeat split; intros r Hr.
  - rewrite set_user_locale_exec in Hr. apply upsert_In in Hr.
    destruct Hr as [-> | [r0 [Hin ->]]]; [reflexivity |].
    rewrite well_shaped_updated. now apply Hs.
  - rewrite set_channel_locale_exec_upsert in Hr. apply upsert_In in Hr.
    destruct Hr as [-> | [r0 [Hin ->]]]; [reflexivity |].
    rewrite well_shaped_updated. now apply Hs.
  - rewrite set_guild_locale_exec in Hr. apply in_app_or in Hr.
    destruct Hr as [Hr | [<- | []]]; [| reflexivity].
    apply filter_In in Hr. now apply Hs.
  - apply filter_In in Hr. now apply Hs.
Qed.

(** *** Writing, then resolving *)

Lemma filter_filter_disjoint_In (q p : row -> bool) (t : table) :
  (forall r, In r t -> q r = true -> p r = false) ->
  filter q (filter (fun r => negb (p r)) t) = filter q t.
Proof.
  induction t as [|x t IH]; simpl; intros H; [reflexivity |].
  assert (IH' : filter q (filter (fun r => negb (p r)) t) = filter q t).
  { apply IH. intros r Hr. apply H. now right. }
  destruct (p x) eqn:Hp; simpl.
  - destruct (q x) eqn:Hq; [| exact IH'].
    rewrite (H x (or_introl eq_refl) Hq) in Hp. discriminate.
  - destruct (q x); now rewrite IH'.
Qed.

(** An upsert leaves alone what a clause selects, when the clause looks
    at the keys, refuses the proposed row and selects no row that the
    conflict test finds. *)
Lemma upsert_filter_other (p q : row -> bool) (new : row) (t : table) :
  (forall l r, q (updated p l r) = q r) ->
  q new = false ->
  (forall r, In r t -> q r = true -> p r = false) ->
  filter q (insert_on_conflict_update p new t) = filter q t.
Proof.
  intros Hq Hnew Hdis. unfold insert_on_conflict_update.
  destruct (existsb p t).
  - rewrite filter_map_commute by (intros; apply Hq).
    rewrite <- (map_id (filter q t)) at 2. apply map_ext_in.
    intros r Hr. apply filter_In in Hr. destruct Hr as [Hin Hr].
    unfold updated. now rewrite (Hdis r Hin Hr).
  - rewrite filter_app_one, Hnew. apply app_nil_r.
Qed.

Section ResolveFacts.

Variable default_locale : string.

Lemma locale_or_default_user_row (t : table) (u : Z) (c g : option Z) (r : row) :
  table_ok t -> In r t -> user r = Some u ->
  run (locale_or_default default_locale u c g) t = Ok (locale_ r).
Proof.
  intros Hok Hin Hu. rewrite (locale_or_default_choice default_locale t u c g Hok).
  rewrite (filter_at_most_one _ _ r (table_ok_user _ (Some u) Hok) Hin); [reflexivity |].
  now apply sql_eq_Some.
Qed.

Lemma locale_or_default_channel_row (t : table) (u c : Z) (g : option Z) (r : row) :
  table_ok t ->
  (forall x, In x t -> user x <> Some u) ->
  In r t -> channel_ r = Some c ->
  run (locale_or_default default_locale u (Some c) g) t = Ok (locale_ r).
Proof.
  intros Hok Hnu Hin Hc. rewrite (locale_or_default_choice default_locale t u _ g Hok).
  rewrite filter_nil.
  - rewrite (filter_at_most_one _ _ r (table_ok_channel _ (Some c) Hok) Hin);
      [reflexivity | now apply sql_eq_Some].
  - intros x Hx. unfold where_user. destruct (sql_eq (user x) (Some u)) eqn:E;
      [| reflexivity].
    apply sql_eq_Some in E. now apply Hnu in E.
Qed.

Lemma locale_or_default_guild_row (t : table) (u g : Z) (c : option Z) (r : row) :
  table_ok t ->
  (forall x, In x t -> user x <> Some u) ->
  (forall x, In x t -> where_channel c x = false) ->
  In r t -> where_guild_default (Some g) r = true ->
  run (locale_or_default default_locale u c (Some g)) t = Ok (locale_ r).
Proof.
  intros Hok Hnu Hnc Hin Hg. rewrite (locale_or_default_choice default_locale t u c _ Hok).
  rewrite filter_nil.
  - rewrite (filter_nil _ _ Hnc).
    now rewrite (filter_at_most_one _ _ r (table_ok_guild_default _ (Some g) Hok) Hin).
  - intros x Hx. unfold where_user. destruct (sql_eq (user x) (Some u)) eqn:E;
      [| reflexivity].
    apply sql_eq_Some in E. now apply Hnu in E.
Qed.

(** X14.  After [set_user_locale], the user's locale resolves to the
    new one in every channel and guild, whatever the rows of channels
    and guilds say. *)
Theorem set_user_locale_then_resolve (t : table) (u : Z) (c g : option Z) (l : string) :
  table_ok t ->
  l <> "" ->
  run (locale_or_default default_locale u c g) (exec (set_user_locale u l) t) = Ok l.
Proof.
  intros Hok Hl.
  destruct (upsert_row (conflict_user u) (mkRow (Some u) None None l)
              (conflict_user_updated u (conflict_user u)) (conflict_user_new u l) t
              (unique_user Hok u))
    as [r [Hf [Hloc _]]].
  destruct (filter_hd_In _ _ _ _ Hf) as [Hin Hr].
  rewrite <- set_user_locale_exec in Hin. simpl in Hloc. subst l.
  apply locale_or_default_user_row.
  - now apply set_user_locale_ok.
  - exact Hin.
  - now apply sql_eq_Some.
Qed.

(** X15.  After [set_channel_locale], a user who has no row of their
    own resolves to the new locale in that channel. *)
Theorem set_channel_locale_then_resolve (t : table) (u g c : Z) (g' : option Z)
  (l : string) :
  table_ok t ->
  l <> "" ->
  (forall r, In r t -> channel_ r = Some c -> guild r = Some g) ->
  (forall r, In r t -> user r <> Some u) ->
  run (locale_or_default default_locale u (Some c) g') (exec (set_channel_locale g c l) t)
  = Ok l.
Proof.
  intros Hok Hl Hguild Hnu.
  assert (Hone : at_most_one (conflict_guild_channel g c) t).
  { unfold at_most_one.
    assert (Hle : (List.length (filter (conflict_guild_channel g c) t)
                   <= List.length (filter (where_channel (Some c)) t))%nat).
    { clear. induction t as [|x t IH]; simpl; [lia |].
      unfold conflict_guild_channel at 1, where_channel at 1.
      destruct (sql_eq (channel_ x) (Some c)), (sql_eq (guild x) (Some g)); simpl; lia. }
    pose proof (unique_channel Hok c) as H. unfold at_most_one in H. lia. }
  destruct (upsert_row (conflict_guild_channel g c) (mkRow None (Some c) (Some g) l)
              (fun l0 r0 => conflict_guild_channel_updated _ l0 g c r0)
              (conflict_guild_channel_new g c l) t Hone)
    as [r [Hf [Hloc _]]].
  destruct (filter_hd_In _ _ _ _ Hf) as [Hin Hr].
  rewrite <- set_channel_locale_exec_upsert in Hin. simpl in Hloc. subst l.
  apply locale_or_default_channel_row.
  - now apply set_channel_locale_ok.
  - intros x Hx. rewrite set_channel_locale_exec_upsert in Hx. apply upsert_In in Hx.
    destruct Hx as [-> | [x0 [Hx0 ->]]]; [discriminate |].
    unfold updated. destruct (conflict_guild_channel g c x0); simpl; now apply Hnu.
  - exact Hin.
  - apply conflict_guild_channel_iff in Hr. apply Hr.
Qed.

(** X16.  After [set_guild_locale], a user who has no row of their own
    resolves to the new locale in every channel of the guild that has
    no row. *)
Theorem set_guild_locale_then_resolve (t : table) (u g : Z) (c : option Z) (l : string) :
  table_ok t ->
  l <> "" ->
  (forall r, In r t -> user r <> Some u) ->
  (forall r, In r t -> where_channel c r = false) ->
  run (locale_or_default default_locale u c (Some g)) (exec (set_guild_locale g l) t)
  = Ok l.
Proof.
  intros Hok Hl Hnu Hnc.
  assert (Hrows : forall x, In x (exec (set_guild_locale g l) t) ->
                            In x t \/ x = mkRow None None (Some g) l).
  { intros x Hx. rewrite set_guild_locale_exec in Hx. apply in_app_or in Hx.
    destruct Hx as [Hx | [<- | []]]; [| now right].
    left. apply filter_In in Hx. apply Hx. }
  change (Ok l) with (Ok (A := string) (locale_ (mkRow None None (Some g) l))).
  apply locale_or_default_guild_row.
  - now apply set_guild_locale_ok.
  - intros x Hx. destruct (Hrows x Hx) as [Hin | ->]; [now apply Hnu | discriminate].
  - intros x Hx. destruct (Hrows x Hx) as [Hin | ->]; [now apply Hnc |].
    unfold where_channel. simpl. now destruct c.
  - rewrite set_guild_locale_exec. apply in_or_app. right. now left.
  - unfold where_guild_default. simpl. now rewrite Z.eqb_refl.
Qed.

(** X17.  After [delete_user_account], on a table of well-shaped rows,
    the user resolves as the channel does: to what
    [channel_or_guild_locale] finds, or to the default locale. *)
Theorem delete_user_account_then_resolve (t : table) (u c g : Z) :
  shaped t ->
  run (locale_or_default default_locale u (Some c) (Some g))
    (exec (delete_user_account u) t)
  = match run (channel_or_guild_locale (c, g)) t with
    | Ok found => Ok (Py.or_str found default_locale)
    | Raise e => Raise e
    end.
Proof.
  intros Hs.
  assert (Hsel : forall q,
             (forall r, In r t -> q r = true -> where_user (Some u) r = false) ->
             select_locale q (exec (delete_user_account u) t) = select_locale q t).
  { intros q Hq. unfold select_locale. f_equal.
    now apply filter_filter_disjoint_In. }
  unfold run, locale_or_default, db_bind, db_ret, user_channel_or_guild_locale,
    channel_or_guild_locale, fetchval. cbn [fst snd coalesce].
  replace (select_locale (where_user (Some u)) (exec (delete_user_account u) t))
    with (@nil string).
  2: { unfold select_locale. symmetry.
       change (exec (delete_user_account u) t)
         with (filter (fun r => negb (where_user (Some u) r)) t).
       now rewrite filter_filter_negb. }
  cbn [scalar_subquery].
  rewrite !Hsel.
  - destruct (scalar_subquery (select_locale (where_channel (Some c)) t)) as [[v|]|e];
      try reflexivity.
    destruct (scalar_subquery (select_locale (where_guild_default (Some g)) t))
      as [[v|]|e]; reflexivity.
  - intros r _ Hr. unfold where_guild_default in Hr.
    apply andb_true_iff in Hr. destruct Hr as [_ Hr]. apply is_null_iff in Hr.
    unfold where_user. now rewrite Hr.
  - intros r Hin Hr. apply sql_eq_Some in Hr. pose proof (Hs r Hin) as Hw.
    unfold well_shaped in Hw. rewrite Hr in Hw. unfold where_user.
    destruct (user r); [discriminate | reflexivity].
Qed.

End ResolveFacts.

(** X18.  On a table of well-shaped rows, what a user does to their own
    row does not change what any channel reports: neither
    [set_user_locale] nor [delete_user_account] changes the result of
    [channel_or_guild_locale]. *)
Theorem user_writes_leave_channels (t : table) (u : Z) (l : string) (channel : Z * Z) :
  shaped t ->
  run (channel_or_guild_locale channel) (exec (set_user_locale u l) t)
  = run (channel_or_guild_locale channel) t
  /\ run (channel_or_guild_locale channel) (exec (delete_user_account u) t)
     = run (channel_or_guild_locale channel) t.
Proof.
  intros Hs.
  assert (Hchan : forall c r, In r t -> where_channel (Some c) r = true ->
                              where_user (Some u) r = false).
  { intros c r Hin Hr. apply sql_eq_Some in Hr. pose proof (Hs r Hin) as Hw.
    unfold well_shaped in Hw. rewrite Hr in Hw. unfold where_user.
    destruct (user r); [discriminate | reflexivity]. }
  assert (Hgd : forall g r, where_guild_default (Some g) r = true ->
                            where_user (Some u) r = false).
  { intros g r Hr. unfold where_guild_default in Hr.
    apply andb_true_iff in Hr. destruct Hr as [_ Hr]. apply is_null_iff in Hr.
    unfold where_user. now rewrite Hr. }
  destruct channel as [c g].
  unfold run, channel_or_guild_locale, fetchval, select_locale. cbn [fst snd]. split.
  - rewrite set_user_locale_exec.
    rewrite !(upsert_filter_other (conflict_user u)); try reflexivity.
    + intros; apply where_guild_default_updated.
    + intros r _. apply Hgd.
    + intros; apply where_channel_updated.
    + intros r. apply Hchan.
  - change (exec (delete_user_account u) t)
      with (filter (fun r => negb (where_user (Some u) r)) t).
    rewrite !filter_filter_disjoint_In; try reflexivity.
    + intros r _. apply Hgd.
    + intros r. apply Hchan.
Qed.

(** *** The converter [Locale] and the commands *)

Section CommandFacts.

Variable locales : list string.
Variable default_locale : string.
Variable gettext : string -> string.
Variable format : string -> string -> string -> string.
Variable is_owner : Z -> bool.

Lemma Locale_Ok (argument l : string) :
  Locale locales gettext format argument = Ok l -> l = argument /\ In argument locales.
Proof.
  unfold Locale. destruct (existsb (String.eqb argument) locales) eqn:E; simpl.
  - intros H. injection H as <-. split; [reflexivity |].
    apply existsb_exists in E. destruct E as [x [Hin Hx]].
    apply String.eqb_eq in Hx. now subst x.
  - discriminate.
Qed.

(** X19.  [Locale] accepts exactly the members of [i18n.locales] and
    returns them as they are; any other argument raises
    [InvalidLocaleError], whose message is made from the list of the
    locales joined with [", "]. *)
Theorem Locale_supported (argument : string) :
  (forall l, Locale locales gettext format argument = Ok l
             <-> l = argument /\ In argument locales)
  /\ (~ In argument locales ->
      Locale locales gettext format argument
      = Raise (BadArgument
                 (format (gettext "Invalid locale. The valid locales are: {locales}")
                    "locales" (String.concat ", " locales)))).
Proof.
  split.
  - intros l. split; [apply Locale_Ok |]. intros [-> Hin]. unfold Locale.
    assert (E : existsb (String.eqb argument) locales = true).
    { apply existsb_exists. exists argument. split; [assumption |]. apply String.eqb_refl. }
    now rewrite E.
  - intros Hnot. unfold Locale, InvalidLocaleError.
    destruct (existsb (String.eqb argument) locales) eqn:E; [| reflexivity].
    exfalso. apply Hnot. apply existsb_exists in E. destruct E as [x [Hin Hx]].
    apply String.eqb_eq in Hx. now subst x.
Qed.

Lemma set_locale_command_exec (ctx : command_context) (channel : option Z)
  (l : string) (t : table) :
  exec (set_locale_command is_owner ctx channel l) t
  = match channel with
    | None => exec (set_user_locale (author_id ctx) l) t
    | Some c =>
        if manage_messages ctx && is_owner (author_id ctx)
        then exec (set_channel_locale (guild_id ctx) c l) t
        else t
    end.
Proof.
  unfold set_locale_command. destruct channel as [c|]; [| reflexivity].
  now destruct (manage_messages ctx), (is_owner (author_id ctx)).
Qed.

Lemma set_guild_locale_command_exec (ctx : command_context) (l : string) (t : table) :
  exec (set_guild_locale_command ctx l) t
  = if channel_manage_messages ctx then exec (set_guild_locale (guild_id ctx) l) t else t.
Proof. unfold set_guild_locale_command. now destruct (channel_manage_messages ctx). Qed.

(** X20.  The two [set] commands store only locales that [Locale]
    accepted: when every row of the table holds a member of
    [i18n.locales], so does every row after the command. *)
Theorem set_commands_store_supported (ctx : command_context) (channel : option Z)
  (argument l : string) (t : table) :
  Locale locales gettext format argument = Ok l ->
  all_supported locales t ->
  all_supported locales (exec (set_locale_command is_owner ctx channel l) t)
  /\ all_supported locales (exec (set_guild_locale_command ctx l) t).
Proof.
  intros HL Ht. apply Locale_Ok in HL. destruct HL as [-> Hin].
  assert (Hup : forall p new, locale_ new = argument ->
                  all_supported locales (insert_on_conflict_update p new t)).
  { intros p new Hnew r Hr. apply upsert_In in Hr.
    destruct Hr as [-> | [r0 [Hr0 ->]]]; [now rewrite Hnew |].
    unfold updated. destruct (p r0); [simpl; now rewrite Hnew | now apply Ht]. }
  split.
  - rewrite set_locale_command_exec. destruct channel as [c|].
    + destruct (manage_messages ctx && is_owner (author_id ctx)); [| exact Ht].
      rewrite set_channel_locale_exec_upsert. now apply Hup.
    + rewrite set_user_locale_exec. now apply Hup.
  - rewrite set_guild_locale_command_exec.
    destruct (channel_manage_messages ctx); [| exact Ht].
    intros r Hr. rewrite set_guild_locale_exec in Hr. apply in_app_or in Hr.
    destruct Hr as [Hr | [<- | []]]; [| exact Hin].
    apply filter_In in Hr. now apply Ht.
Qed.

(** X21.  A [set] command that raises has written nothing, in a guild
    and in a direct message.  [locale set] raises only with a channel
    given: [MissingPermissions] for Manage Messages in a guild, when the
    caller lacks the permission or is not the owner, and
    [AttributeError] in a direct message, where the author has no
    [guild_permissions].  [serverlocale set] raises [NoPrivateMessage]
    in a direct message and [MissingPermissions] in a guild where the
    caller lacks Manage Messages.  Setting one's own locale never
    raises, wherever the command is invoked. *)
Theorem set_commands_raise_without_writing (inv : invocation)
  (channel : option Z) (l : string) (t : table) :
  (forall e, run (locale_set is_owner inv channel l) t = Raise e ->
             channel <> None
             /\ match inv with
                | InGuild ctx =>
                    e = MissingPermissions ["manage_messages"]
                    /\ manage_messages ctx && is_owner (author_id ctx) = false
                | InPrivate _ => e = AttributeError "guild_permissions"
                end
             /\ exec (locale_set is_owner inv channel l) t = t)
  /\ (forall e, run (serverlocale_set inv l) t = Raise e ->
                match inv with
                | InGuild ctx =>
                    e = MissingPermissions ["manage_messages"]
                    /\ channel_manage_messages ctx = false
                | InPrivate _ => e = NoPrivateMessage
                end
                /\ exec (serverlocale_set inv l) t = t)
  /\ run (locale_set is_owner inv None l) t = Ok tt.
Proof.
  split; [| split].
  - intros e H. destruct inv as [ctx | author]; cbn [locale_set] in *.
    + rewrite set_locale_command_exec. unfold set_locale_command in H.
      destruct channel as [c|]; [| discriminate].
      destruct (manage_messages ctx), (is_owner (author_id ctx));
        cbn in H; try discriminate;
        (split; [discriminate |]); (split; [| reflexivity]);
        (split; [congruence | reflexivity]).
    + destruct channel as [c|]; [| discriminate].
      cbn in H. split; [discriminate |]. split; [congruence | reflexivity].
  - intros e H. destruct inv as [ctx | author]; cbn [serverlocale_set] in *.
    + rewrite set_guild_locale_command_exec. unfold set_guild_locale_command in H.
      destruct (channel_manage_messages ctx); [discriminate |].
      cbn in H. split; [split; [congruence | reflexivity] | reflexivity].
    + cbn in H. split; [congruence | reflexivity].
  - destruct inv as [ctx | author]; reflexivity.
Qed.

(** Conversely the two errors of a direct message are raised whatever
    the table, the channel and the locale are. *)
Lemma set_commands_in_private (author c : Z) (l : string) (t : table) :
  run (locale_set is_owner (InPrivate author) (Some c) l) t
  = Raise (AttributeError "guild_permissions")
  /\ run (serverlocale_set (InPrivate author) l) t = Raise NoPrivateMessage.
Proof. split; reflexivity. Qed.

Lemma get_locale_command_run_own (m : message) (t : table) :
  run (get_locale_command default_locale gettext format m None) t
  = match run (locale default_locale m) t with
    | Ok l => Ok (format (gettext "Your current locale is: {user_locale}") "user_locale" l)
    | Raise e => Raise e
    end.
Proof.
  unfold run, get_locale_command, db_bind, db_ret.
  now destruct (locale default_locale m t) as [[l|e] t'].
Qed.

(** X22.  Whoever sets their own locale reads it back: after
    [set_locale_command] without a channel, which needs no permission,
    [get_locale_command] without a channel answers with the new locale
    for a message of the same author, wherever it was sent. *)
Theorem set_then_get_own_locale (ctx : command_context) (m : message) (l : string)
  (t : table) :
  table_ok t ->
  l <> "" ->
  message_webhook_id m = None ->
  message_author m = author_id ctx ->
  run (get_locale_command default_locale gettext format m None)
    (exec (set_locale_command is_owner ctx None l) t)
  = Ok (format (gettext "Your current locale is: {user_locale}") "user_locale" l).
Proof.
  intros Hok Hl Hhook Hauthor.
  rewrite get_locale_command_run_own, set_locale_command_exec.
  assert (E : forall t0,
             run (locale default_locale m) t0
             = run (locale_or_default default_locale (author_id ctx)
                      (match message_guild m with
                       | Some _ => Some (message_channel m)
                       | None => None
                       end) (message_guild m)) t0).
  { intros t0. unfold locale. rewrite Hhook, Hauthor. simpl.
    now destruct (message_guild m). }
  rewrite E.
  destruct (upsert_row (conflict_user (author_id ctx))
              (mkRow (Some (author_id ctx)) None None l)
              (conflict_user_updated (author_id ctx) (conflict_user (author_id ctx)))
              (conflict_user_new (author_id ctx) l) t (unique_user Hok (author_id ctx)))
    as [r [Hf [Hloc _]]].
  destruct (filter_hd_In _ _ _ _ Hf) as [Hin Hr].
  rewrite <- set_user_locale_exec in Hin. simpl in Hloc.
  rewrite (locale_or_default_user_row default_locale _ (author_id ctx) _ _ r).
  - now rewrite Hloc.
  - now apply set_user_locale_ok.
  - exact Hin.
  - now apply sql_eq_Some.
Qed.

(** X23.  A caller with Manage Messages in the channel sets the guild's
    locale and reads it back: after [set_guild_locale_command],
    [get_guild_locale_command] answers with the new locale, on any
    table. *)
Theorem set_then_get_guild_locale (ctx : command_context) (l : string) (t : table) :
  channel_manage_messages ctx = true ->
  l <> "" ->
  run (get_guild_locale_command default_locale gettext format ctx)
    (exec (set_guild_locale_command ctx l) t)
  = Ok (format (gettext "The current locale for this server is: {guild_locale}")
          "guild_locale" l).
Proof.
  intros Hperm Hl. rewrite set_guild_locale_command_exec, Hperm.
  unfold run, get_guild_locale_command, db_bind, db_ret, guild_locale, fetchval,
    select_locale.
  rewrite set_guild_locale_own. cbn. unfold Py.or_str.
  destruct (String.eqb_spec l ""); [contradiction | reflexivity].
Qed.

(** X24.  A caller whom the gate lets through sets a channel's locale
    and anyone reads it back: after [set_locale_command] with a
    channel, [get_locale_command] with that channel answers with the
    new locale, whatever message asks. *)
Theorem set_then_get_channel_locale (ctx : command_context) (m : message) (c : Z)
  (l : string) (t : table) :
  manage_messages ctx && is_owner (author_id ctx) = true ->
  table_ok t ->
  l <> "" ->
  (forall r, In r t -> channel_ r = Some c -> guild r = Some (guild_id ctx)) ->
  run (get_locale_command default_locale gettext format m (Some (c, guild_id ctx)))
    (exec (set_locale_command is_owner ctx (Some c) l) t)
  = Ok (format (gettext "The current locale for that channel is: {channel_or_guild_locale}")
          "channel_or_guild_locale" l).
Proof.
  intros Hgate Hok Hl Hguild. rewrite set_locale_command_exec, Hgate.
  pose proof (set_channel_locale_ok t (guild_id ctx) c l Hok Hl Hguild) as Hok'.
  assert (Hone : at_most_one (conflict_guild_channel (guild_id ctx) c) t).
  { unfold at_most_one.
    assert (Hle : (List.length (filter (conflict_guild_channel (guild_id ctx) c) t)
                   <= List.length (filter (where_channel (Some c)) t))%nat).
    { clear. induction t as [|x t IH]; simpl; [lia |].
      unfold conflict_guild_channel at 1, where_channel at 1.
      destruct (sql_eq (channel_ x) (Some c)), (sql_eq (guild x) (Some (guild_id ctx)));
        simpl; lia. }
    pose proof (unique_channel Hok c) as H. unfold at_most_one in H. lia. }
  destruct (upsert_row (conflict_guild_channel (guild_id ctx) c)
              (mkRow None (Some c) (Some (guild_id ctx)) l)
              (fun l0 r0 => conflict_guild_channel_updated _ l0 (guild_id ctx) c r0)
              (conflict_guild_channel_new (guild_id ctx) c l) t Hone)
    as [r [Hf [Hloc _]]].
  destruct (filter_hd_In _ _ _ _ Hf) as [Hin Hr].
  rewrite <- set_channel_locale_exec_upsert in Hin. simpl in Hloc.
  apply conflict_guild_channel_iff in Hr. destruct Hr as [_ Hc].
  assert (Hfound : run (channel_or_guild_locale (c, guild_id ctx))
                     (exec (set_channel_locale (guild_id ctx) c l) t) = Ok (Some l)).
  { rewrite (channel_or_guild_locale_choice _ c (guild_id ctx) Hok').
    rewrite (filter_at_most_one _ _ r (table_ok_channel _ (Some c) Hok') Hin);
      [now rewrite Hloc | now apply sql_eq_Some]. }
  unfold run, get_locale_command, db_bind, db_ret in *.
  destruct (channel_or_guild_locale (c, guild_id ctx)
              (exec (set_channel_locale (guild_id ctx) c l) t)) as [[v|e] t'];
    simpl in *; [| discriminate].
  injection Hfound as ->. unfold Py.or_str.
  destruct (String.eqb_spec l ""); [contradiction | reflexivity].
Qed.

End CommandFacts.

(** ** The further properties on the sample channel and table *)

Ltac sample_rows_cases H :=
  simpl in H; repeat (destruct H as [<- | H]; [try discriminate; try reflexivity |]);
  try contradiction.

Lemma sample_rows_shaped : shaped Sample.rows.
Proof. intros r Hr. sample_rows_cases Hr. Qed.

Lemma sample_rows_supported : all_supported SampleText.locales Sample.rows.
Proof. intros r Hr. sample_rows_cases Hr; simpl; tauto. Qed.

Lemma sample_channel_800 :
  forall r, In r Sample.rows -> channel_ r = Some 800 -> guild r = Some 900.
Proof. intros r Hr Hc. sample_rows_cases Hr; simpl in Hc; try discriminate. Qed.

Lemma sample_channel_801 :
  forall r, In r Sample.rows -> channel_ r = Some 801 -> guild r = Some 900.
Proof. intros r Hr Hc. sample_rows_cases Hr; simpl in Hc; discriminate. Qed.

Lemma sample_no_user_5 : forall r, In r Sample.rows -> user r <> Some 5.
Proof. intros r Hr. sample_rows_cases Hr; simpl; discriminate. Qed.

Lemma sample_no_channel_801 :
  forall r, In r Sample.rows -> where_channel (Some 801) r = false.
Proof. intros r Hr. sample_rows_cases Hr. Qed.

Lemma offset_and_identifier_disjoint_witness :
  OffsetMessage_convert get_message_by_offset_spec Sample.ctx "21154535154122902"
  = Raise (BadArgument "Not a message offset.")
  \/ OffsetMessage_convert get_message_by_offset_spec Sample.ctx "21154535154122902"
     = Raise (BadArgument "Not a valid integer.").
Proof.
  apply (offset_and_identifier_disjoint Sample.SMALLEST_SNOWFLAKE
           get_message_by_offset_spec Sample.ctx "21154535154122902" 21154535154122902).
  - unfold Sample.SMALLEST_SNOWFLAKE. lia.
  - reflexivity.
Defined.

Lemma Message_convert_identifier_witness :
  Message_convert Sample.SMALLEST_SNOWFLAKE get_message_by_offset_spec
    Sample.MemberConverter_convert Sample.RE_CUSTOM_EMOTE_pieces Sample.casefold
    Sample.ctx "21154535154122902" = Ok Sample.M2.
Proof.
  apply (Message_convert_identifier Sample.SMALLEST_SNOWFLAKE get_message_by_offset_spec
           Sample.MemberConverter_convert Sample.RE_CUSTOM_EMOTE_pieces Sample.casefold
           Sample.ctx "21154535154122902" 21154535154122902 Sample.M2).
  - unfold Sample.SMALLEST_SNOWFLAKE. lia.
  - reflexivity.
  - unfold Sample.SMALLEST_SNOWFLAKE. lia.
  - reflexivity.
Defined.


(** On the sample channel the keyword is found through the union, in
    the message whose emote carries the name. *)
Example Message_finds_emote_name :
  Message_convert Sample.SMALLEST_SNOWFLAKE get_message_by_offset_spec
    Sample.MemberConverter_convert Sample.RE_CUSTOM_EMOTE_pieces Sample.casefold
    Sample.ctx "thinkEYES over" = Ok Sample.M2.
Proof. reflexivity. Qed.

Lemma IDMessage_convert_errors_witness :
  (NameError "discord" = BadArgument "Not a valid integer."
   /\ Py.int "21154535154122999" = None)
  \/ (NameError "discord" = BadArgument "Not a valid message ID."
      /\ exists n, Py.int "21154535154122999" = Some n /\ n < Sample.SMALLEST_SNOWFLAKE)
  \/ (NameError "discord" = NameError "discord"
      /\ exists n e', Py.int "21154535154122999" = Some n
                      /\ Sample.SMALLEST_SNOWFLAKE <= n
                      /\ get_message (ctx_channel Sample.ctx) n = Raise e').
Proof.
  apply (IDMessage_convert_errors Sample.SMALLEST_SNOWFLAKE Sample.ctx
           "21154535154122999" (NameError "discord")).
  reflexivity.
Defined.

Lemma KeywordMessage_convert_empty_keyword_witness :
  KeywordMessage_convert Sample.RE_CUSTOM_EMOTE_pieces Sample.casefold Sample.ctx ""
  = Ok Sample.M1.
Proof.
  apply (KeywordMessage_convert_empty_keyword Sample.RE_CUSTOM_EMOTE_pieces
           Sample.casefold Sample.ctx Sample.M1 [Sample.M2; Sample.M3]).
  - reflexivity.
  - reflexivity.
  - simpl. lia.
Defined.

Lemma Message_convert_below_floor_witness :
  Message_convert Sample.SMALLEST_SNOWFLAKE get_message_by_offset_spec
    Sample.MemberConverter_convert Sample.RE_CUSTOM_EMOTE_pieces Sample.casefold
    Sample.ctx "007"
  = union_convert
      [ MemberMessage_convert Sample.MemberConverter_convert;
        KeywordMessage_convert Sample.RE_CUSTOM_EMOTE_pieces Sample.casefold ]
      Sample.ctx "007".
Proof.
  apply (Message_convert_below_floor Sample.SMALLEST_SNOWFLAKE
           get_message_by_offset_spec Sample.MemberConverter_convert
           Sample.RE_CUSTOM_EMOTE_pieces Sample.casefold Sample.ctx "007" 7).
  - reflexivity.
  - unfold Sample.SMALLEST_SNOWFLAKE. lia.
Defined.

Lemma channel_or_guild_locale_precedence_witness :
  run (channel_or_guild_locale (800, 900)) Sample.rows = Ok (Some "es_ES").
Proof.
  apply (proj1 (channel_or_guild_locale_precedence Sample.rows 800 900 sample_rows_ok)
           (mkRow None (Some 800) (Some 900) "es_ES")).
  - simpl. tauto.
  - reflexivity.
Defined.

Lemma set_user_locale_upsert_witness :
  exists r,
    filter (conflict_user 1) (exec (set_user_locale 1 "fr_FR") Sample.rows) = [r]
    /\ locale_ r = "fr_FR" /\ user r = Some 1.
Proof.
  exact (proj1 (proj2 (set_user_locale_upsert Sample.rows 1 "fr_FR"
                         (unique_user sample_rows_ok 1)))).
Defined.

Lemma writers_keep_table_ok_witness :
  table_ok (exec (set_user_locale 5 "de_DE") Sample.rows)
  /\ table_ok (exec (set_guild_locale 5 "de_DE") Sample.rows)
  /\ table_ok (exec (delete_user_account 5) Sample.rows).
Proof.
  apply (writers_keep_table_ok Sample.rows 5 "de_DE" sample_rows_ok). discriminate.
Defined.

Lemma set_channel_locale_table_ok_witness :
  table_ok (exec (set_channel_locale 900 800 "de_DE") Sample.rows)
  /\ (forall r, In r (exec (set_channel_locale 900 800 "de_DE") Sample.rows) ->
                channel_ r = Some 800 -> guild r = Some 900).
Proof.
  apply (set_channel_locale_table_ok Sample.rows 900 800 "de_DE" sample_rows_ok).
  - discriminate.
  - exact sample_channel_800.
Defined.

Lemma writers_keep_shapes_witness :
  shaped (exec (set_user_locale 800 "de_DE") Sample.rows)
  /\ shaped (exec (set_channel_locale 900 800 "de_DE") Sample.rows)
  /\ shaped (exec (set_guild_locale 800 "de_DE") Sample.rows)
  /\ shaped (exec (delete_user_account 800) Sample.rows).
Proof.
  exact (writers_keep_shapes Sample.rows 900 800 "de_DE" sample_rows_shaped).
Defined.

Lemma set_user_locale_then_resolve_witness :
  run (locale_or_default "en_US" 5 (Some 800) (Some 900))
    (exec (set_user_locale 5 "hu_HU") Sample.rows) = Ok "hu_HU".
Proof.
  apply (set_user_locale_then_resolve "en_US" Sample.rows 5 (Some 800) (Some 900) "hu_HU"
           sample_rows_ok).
  discriminate.
Defined.

Lemma set_channel_locale_then_resolve_witness :
  run (locale_or_default "en_US" 5 (Some 801) (Some 900))
    (exec (set_channel_locale 900 801 "fr_FR") Sample.rows) = Ok "fr_FR".
Proof.
  apply (set_channel_locale_then_resolve "en_US" Sample.rows 5 900 801 (Some 900) "fr_FR"
           sample_rows_ok).
  - discriminate.
  - exact sample_channel_801.
  - exact sample_no_user_5.
Defined.

Lemma set_guild_locale_then_resolve_witness :
  run (locale_or_default "en_US" 5 (Some 801) (Some 901))
    (exec (set_guild_locale 901 "de_DE") Sample.rows) = Ok "de_DE".
Proof.
  apply (set_guild_locale_then_resolve "en_US" Sample.rows 5 901 (Some 801) "de_DE"
           sample_rows_ok).
  - discriminate.
  - exact sample_no_user_5.
  - exact sample_no_channel_801.
Defined.

Lemma delete_user_account_then_resolve_witness :
  run (locale_or_default "en_US" 1 (Some 800) (Some 900))
    (exec (delete_user_account 1) Sample.rows)
  = match run (channel_or_guild_locale (800, 900)) Sample.rows with
    | Ok found => Ok (Py.or_str found "en_US")
    | Raise e => Raise e
    end.
Proof.
  exact (delete_user_account_then_resolve "en_US" Sample.rows 1 800 900
           sample_rows_shaped).
Defined.

Example delete_user_account_falls_back :
  run (locale_or_default "en_US" 1 (Some 800) (Some 900)) Sample.rows = Ok "de_DE"
  /\ run (locale_or_default "en_US" 1 (Some 800) (Some 900))
       (exec (delete_user_account 1) Sample.rows) = Ok "es_ES".
Proof. split; reflexivity. Qed.

Lemma user_writes_leave_channels_witness :
  run (channel_or_guild_locale (800, 900)) (exec (set_user_locale 1 "fr_FR") Sample.rows)
  = run (channel_or_guild_locale (800, 900)) Sample.rows
  /\ run (channel_or_guild_locale (800, 900)) (exec (delete_user_account 1) Sample.rows)
     = run (channel_or_guild_locale (800, 900)) Sample.rows.
Proof.
  exact (user_writes_leave_channels Sample.rows 1 "fr_FR" (800, 900) sample_rows_shaped).
Defined.

Lemma set_commands_store_supported_witness :
  all_supported SampleText.locales
    (exec (set_locale_command (fun _ => true) SampleText.moderator (Some 800) "de_DE")
       Sample.rows)
  /\ all_supported SampleText.locales
       (exec (set_guild_locale_command SampleText.moderator "de_DE") Sample.rows).
Proof.
  apply (set_commands_store_supported SampleText.locales SampleText.gettext
           SampleText.format (fun _ => true) SampleText.moderator (Some 800)
           "de_DE" "de_DE" Sample.rows).
  - reflexivity.
  - exact sample_rows_supported.
Defined.

Example Locale_refuses_unknown :
  Locale SampleText.locales SampleText.gettext SampleText.format "xx_XX"
  = Raise (BadArgument
      "Invalid locale. The valid locales are: {locales} <- locales=en_US, de_DE, es_ES, hu_HU, fr_FR").
Proof. reflexivity. Qed.

Lemma set_then_get_own_locale_witness :
  run (get_locale_command "en_US" SampleText.gettext SampleText.format Sample.M1 None)
    (exec (set_locale_command (fun _ => false) SampleText.moderator None "hu_HU")
       Sample.rows)
  = Ok (SampleText.format (SampleText.gettext "Your current locale is: {user_locale}")
          "user_locale" "hu_HU").
Proof.
  apply (set_then_get_own_locale "en_US" SampleText.gettext SampleText.format
           (fun _ => false) SampleText.moderator Sample.M1 "hu_HU" Sample.rows
           sample_rows_ok).
  - discriminate.
  - reflexivity.
  - reflexivity.
Defined.

Lemma set_then_get_guild_locale_witness :
  run (get_guild_locale_command "en_US" SampleText.gettext SampleText.format
         SampleText.moderator)
    (exec (set_guild_locale_command SampleText.moderator "fr_FR") Sample.rows)
  = Ok (SampleText.format
          (SampleText.gettext "The current locale for this server is: {guild_locale}")
          "guild_locale" "fr_FR").
Proof.
  apply (set_then_get_guild_locale "en_US" SampleText.gettext SampleText.format
           SampleText.moderator "fr_FR" Sample.rows).
  - reflexivity.
  - discriminate.
Defined.

Lemma set_then_get_channel_locale_witness :
  run (get_locale_command "en_US" SampleText.gettext SampleText.format Sample.M2
         (Some (800, guild_id SampleText.moderator)))
    (exec (set_locale_command (fun _ => true) SampleText.moderator (Some 800) "hu_HU")
       Sample.rows)
  = Ok (SampleText.format
          (SampleText.gettext
             "The current locale for that channel is: {channel_or_guild_locale}")
          "channel_or_guild_locale" "hu_HU").
Proof.
  apply (set_then_get_channel_locale "en_US" SampleText.gettext SampleText.format
           (fun _ => true) SampleText.moderator Sample.M2 800 "hu_HU" Sample.rows).
  - reflexivity.
  - exact sample_rows_ok.
  - discriminate.
  - exact sample_channel_800.
Defined.
